(** * Stickers cog: catalog construction and dispatch

    A shallow embedding of [cogs/stickers.py].  The cog walks a two-level
    directory tree ([./stickers/<category>/<sticker>.<ext>]), merges optional
    JSON descriptors over literal defaults, hands one command per sticker and
    one per category to the bot, and at invocation time posts a sticker
    through a channel webhook under the caller's identity.

    Conventions of the embedding.
    - Strings are byte strings; [capitalize] acts on ASCII letters and leaves
      other bytes as they are.
    - A path is the string of its components joined by [/].
    - A descriptor document is read at the types the code uses its keys at
      ([hidden] a boolean, [name], [prefix], [message] strings, [aliases] a
      list of strings, [file] a string or null); keys the code never reads
      are not represented.
    - A directory listing is a list in the order [iterdir] yields it.
    - Python exceptions leave every mutation done so far in place: a
      computation returns its outcome together with the state it reached. *)

From Stdlib Require Import Ascii String.
From stdpp Require Import base option list gmap strings.

Local Open Scope stdpp_scope.
#[local] Set Warnings "-clear-no-such-hyp".

(** ** Strings *)

Module PyStr.

Definition is_lower (c : ascii) : bool :=
  let n := nat_of_ascii c in (97 <=? n)%nat && (n <=? 122)%nat.

Definition is_upper (c : ascii) : bool :=
  let n := nat_of_ascii c in (65 <=? n)%nat && (n <=? 90)%nat.

Definition upper (c : ascii) : ascii :=
  if is_lower c then ascii_of_nat (nat_of_ascii c - 32) else c.

Definition lower (c : ascii) : ascii :=
  if is_upper c then ascii_of_nat (nat_of_ascii c + 32) else c.

Fixpoint map_chars (f : ascii → ascii) (s : string) : string :=
  match s with
  | EmptyString => EmptyString
  | String c r => String (f c) (map_chars f r)
  end.

(** [str.capitalize()]: first character upper-cased, the rest lower-cased. *)
Definition capitalize (s : string) : string :=
  match s with
  | EmptyString => EmptyString
  | String c r => String (upper c) (map_chars lower r)
  end.

(** [s.split(sep)] for a one-character separator: the pieces between the
    separators, empty pieces included; never the empty list. *)
Fixpoint split (sep : ascii) (s : string) : list string :=
  match s with
  | EmptyString => [EmptyString]
  | String c r =>
      if Ascii.eqb c sep then EmptyString :: split sep r
      else match split sep r with
           | w :: ws => String c w :: ws
           | [] => [String c EmptyString]
           end
  end.

(** [sep.join(words)]. *)
Fixpoint join (sep : string) (words : list string) : string :=
  match words with
  | [] => EmptyString
  | [w] => w
  | w :: ws => w +:+ sep +:+ join sep ws
  end.

(** [str.isspace] on the ASCII range. *)
Definition is_space (c : ascii) : bool :=
  let n := nat_of_ascii c in
  ((9 <=? n)%nat && (n <=? 13)%nat) || ((28 <=? n)%nat && (n <=? 32)%nat).

Fixpoint lstrip (s : string) : string :=
  match s with
  | EmptyString => EmptyString
  | String c r => if is_space c then lstrip r else s
  end.

Definition rstrip (s : string) : string :=
  String.rev (lstrip (String.rev s)).

(** [str.strip()]. *)
Definition strip (s : string) : string := rstrip (lstrip s).

(** Which numbering of replacement fields a format string has used so
    far: none yet, automatic ([{}], with the index of the next field) or
    manual ([{0}]). *)
Inductive numbering := NoField | Auto (next : nat) | Manual.

(** [template.format(arg)] with one positional argument.  [{{] and [}}]
    are literal braces, [{}] takes the next positional argument and [{0}]
    the first; [None] is an exception of [format] (a lone brace, a second
    automatic field, a switch between automatic and manual numbering, a
    field naming an argument that is not there).  Fields written in any
    other way (a conversion, a format specification, an attribute, an
    index, leading zeros) are outside this model and also give [None]. *)
Fixpoint format_go (mode : numbering) (t : string) (arg : string) : option string :=
  match t with
  | EmptyString => Some EmptyString
  | String c r =>
      if Ascii.eqb c "{" then
        match r with
        | String c1 r1 =>
            if Ascii.eqb c1 "{" then String "{"%char <$> format_go mode r1 arg
            else if Ascii.eqb c1 "}" then
              match mode with
              | NoField => (λ s, arg +:+ s) <$> format_go (Auto 1) r1 arg
              | Auto _ | Manual => None
              end
            else if Ascii.eqb c1 "0" then
              match r1 with
              | String c2 r2 =>
                  if Ascii.eqb c2 "}" then
                    match mode with
                    | NoField | Manual => (λ s, arg +:+ s) <$> format_go Manual r2 arg
                    | Auto _ => None
                    end
                  else None
              | EmptyString => None
              end
            else None
        | EmptyString => None
        end
      else if Ascii.eqb c "}" then
        match r with
        | String c1 r1 =>
            if Ascii.eqb c1 "}" then String "}"%char <$> format_go mode r1 arg
            else None
        | EmptyString => None
        end
      else String c <$> format_go mode r arg
  end.

Definition format (t arg : string) : option string := format_go NoField t arg.

(** No brace occurs in the string. *)
Fixpoint brace_free (s : string) : bool :=
  match s with
  | EmptyString => true
  | String c r => negb (Ascii.eqb c "{") && negb (Ascii.eqb c "}") && brace_free r
  end.

End PyStr.

(** [snake_to_camel]: Converts snake_case to CamelCase. *)
Definition snake_to_camel (name : string) : string :=
  PyStr.join "" (PyStr.capitalize <$> PyStr.split "_" name).

(** [snake_to_title]: Converts snake_case to Title Case. *)
Definition snake_to_title (name : string) : string :=
  PyStr.join " " (PyStr.capitalize <$> PyStr.split "_" name).

(** ** Paths and the filesystem snapshot *)

Module Path.

(** [name.rfind('.')]. *)
Fixpoint rfind_dot (name : string) : option nat :=
  match name with
  | EmptyString => None
  | String c r =>
      match rfind_dot r with
      | Some i => Some (S i)
      | None => if Ascii.eqb c "." then Some 0%nat else None
      end
  end.

(** The index [i] of the last dot when [0 < i < len(name) - 1]. *)
Definition suffix_index (name : string) : option nat :=
  match rfind_dot name with
  | Some i =>
      if (0 <? i)%nat && (i <? String.length name - 1)%nat then Some i else None
  | None => None
  end.

(** [PurePath.suffix] of a final component. *)
Definition suffix (name : string) : string :=
  match suffix_index name with
  | Some i => String.substring i (String.length name - i) name
  | None => EmptyString
  end.

(** [PurePath.stem] of a final component. *)
Definition stem (name : string) : string :=
  match suffix_index name with
  | Some i => String.substring 0 i name
  | None => name
  end.

(** [PurePath.with_suffix], on the final component. *)
Definition with_suffix (name suf : string) : string :=
  match suffix name with
  | EmptyString => name +:+ suf
  | old => String.substring 0 (String.length name - String.length old) name +:+ suf
  end.

(** [dir / name]. *)
Definition join (dir name : string) : string := dir +:+ "/" +:+ name.

End Path.

(** A descriptor document: the keys the code reads, each absent ([None]) or
    present with its value.  [file] may be present with the value null. *)
Record Document := {
  doc_hidden : option bool;
  doc_name : option string;
  doc_prefix : option string;
  doc_aliases : option (list string);
  doc_message : option string;
  doc_file : option (option string);
}.

Definition empty_document : Document :=
  {| doc_hidden := None; doc_name := None; doc_prefix := None;
     doc_aliases := None; doc_message := None; doc_file := None |}.

(** What [path.open()] followed by [json.load] does on a file:
    [Unreadable], the file cannot be opened or read ([IOError]);
    [Malformed], it is read but [json.load] (or the [update] fed with a
    value that is no mapping) raises; [Loaded d], it holds the document [d]. *)
Inductive Content :=
| Unreadable
| Malformed
| Loaded (d : Document).

(** A filesystem node; a directory lists its entries in [iterdir] order. *)
#[local] Unset Elimination Schemes.
Inductive Node :=
| File (c : Content)
| Dir (entries : list (string * Node)).
#[local] Set Elimination Schemes.

Definition listing := list (string * Node).

Definition is_dir (n : Node) : bool :=
  match n with Dir _ => true | File _ => false end.

Definition is_file (n : Node) : bool :=
  match n with File _ => true | Dir _ => false end.

(** The node a name denotes in a directory. *)
Fixpoint lookup_name (name : string) (dir : listing) : option Node :=
  match dir with
  | [] => None
  | (n, node) :: rest => if decide (n = name) then Some node else lookup_name name rest
  end.

(** [path.exists()] for [dir / name]. *)
Definition path_exists (dir : listing) (name : string) : bool :=
  match lookup_name name dir with Some _ => true | None => false end.

(** [open()] + [json.load] on [dir / name]: a missing file and a directory
    both raise [IOError]. *)
Definition load_json (dir : listing) (name : string) : Content :=
  match lookup_name name dir with
  | Some (File c) => c
  | Some (Dir _) | None => Unreadable
  end.

Definition IMAGE_SUFFIXES : gset string :=
  {[ ".gif"; ".jpeg"; ".jpg"; ".png"; ".mp4"; ".webm" ]}.

Definition IMAGE_AND_JSON_SUFFIXES : gset string :=
  IMAGE_SUFFIXES ∪ {[ ".json" ]}.

(** The set literal, in the order it is written. *)
Definition image_suffixes_literal : list string :=
  [".gif"; ".jpeg"; ".jpg"; ".png"; ".mp4"; ".webm"].

(** An order in which iterating over [IMAGE_SUFFIXES] may yield its
    elements: each element once.  A Python set of strings fixes no order;
    it follows the strings' hashes, which change from one interpreter
    process to the next. *)
Definition iteration_order (order : list string) : Prop :=
  order ≡ₚ image_suffixes_literal.

(** ** Configuration records *)

Module Category.
Record config := {
  hidden : bool;
  name : string;
  prefix : string;
  message : string;
  file : option string;
  sticker_names : option (list string);   (* the key is set after the walk *)
}.

(** [category_config.update(document)]. *)
Definition update (c : config) (d : Document) : config :=
  {| hidden := default (hidden c) (doc_hidden d);
     name := default (name c) (doc_name d);
     prefix := default (prefix c) (doc_prefix d);
     message := default (message c) (doc_message d);
     file := default (file c) (doc_file d);
     sticker_names := sticker_names c |}.

Definition set_file (c : config) (f : option string) : config :=
  {| hidden := hidden c; name := name c; prefix := prefix c;
     message := message c; file := f; sticker_names := sticker_names c |}.

Definition set_sticker_names (c : config) (names : list string) : config :=
  {| hidden := hidden c; name := name c; prefix := prefix c;
     message := message c; file := file c; sticker_names := Some names |}.
End Category.

Module Sticker.
Record config := {
  hidden : bool;
  name : string;
  aliases : list string;
  message : string;
  file : option string;
}.

(** [sticker_config.update(document)]. *)
Definition update (c : config) (d : Document) : config :=
  {| hidden := default (hidden c) (doc_hidden d);
     name := default (name c) (doc_name d);
     aliases := default (aliases c) (doc_aliases d);
     message := default (message c) (doc_message d);
     file := default (file c) (doc_file d) |}.

(** [sticker_config['file'] = path]. *)
Definition set_file (c : config) (f : option string) : config :=
  {| hidden := hidden c; name := name c; aliases := aliases c;
     message := message c; file := f |}.
End Sticker.

(** ** Commands *)

(** The two closures the cog builds, with what each captures. *)
Inductive Callback :=
| StickerCallback (file : option string) (message : string)
| CategoryCallback (formatted_message : string) (file : option string).

(** [commands.Command(callback, hidden=, name=, aliases=, help=)]. *)
Record Command := {
  callback : Callback;
  cmd_hidden : bool;
  cmd_name : string;
  cmd_aliases : list string;
  cmd_help : string;
}.

(** ** Exceptions and the cog's state *)

Inductive exn :=
| JSONDecodeError    (* [json.load] on a malformed descriptor *)
| FormatError        (* [str.format] on the category message *)
| KeyError           (* a key read before it is set *)
| OSError            (* [discord.File] on a path that cannot be opened *)
| InvalidArgument    (* [Webhook.from_url] on a URL it does not accept *)
| HTTPException      (* a call of the chat transport that fails *)
| CommandRegistrationError.  (* [bot.add_command] refusing a command *)

Inductive result (A : Type) :=
| Returned (a : A)
| Raised (e : exn).
Arguments Returned {A} a.
Arguments Raised {A} e.

(** A computation over a state [S]: an outcome and the state reached.  An
    exception keeps the state as it was when it was raised. *)
Definition M (S A : Type) : Type := S → result A * S.

Definition ret {S A} (a : A) : M S A := λ st, (Returned a, st).

Definition raise {S A} (e : exn) : M S A := λ st, (Raised e, st).

Definition bind {S A B} (m : M S A) (k : A → M S B) : M S B :=
  λ st, match m st with
        | (Returned a, st') => k a st'
        | (Raised e, st') => (Raised e, st')
        end.

Notation "'let!' x ':=' m 'in' k" := (bind m (λ x, k))
  (at level 10, x binder, m at level 100, k at level 200).
Notation "'do!' m 'in' k" := (bind m (λ _, k))
  (at level 10, m at level 100, k at level 200).

(** The cog's attributes, and the commands handed to [bot.add_command],
    oldest first. *)
Record Stickers := {
  category_sticker_names : gmap string (list string);
  category_names : list string;
  bot : list Command;
}.

(** [Stickers.__init__] before the walk. *)
Definition init : Stickers :=
  {| category_sticker_names := ∅; category_names := []; bot := [] |}.

(** A method of the cog. *)
Abbreviation Build := (M Stickers).

(** [self.bot.add_command(cmd)], as far as the cog is concerned: the command
    is handed over. *)
Definition add_command (cmd : Command) : Build unit :=
  λ st, (Returned (),
         {| category_sticker_names := category_sticker_names st;
            category_names := category_names st;
            bot := bot st ++ [cmd] |}).

(** [self.category_names.append(name)]. *)
Definition append_category_name (name : string) : Build unit :=
  λ st, (Returned (),
         {| category_sticker_names := category_sticker_names st;
            category_names := category_names st ++ [name];
            bot := bot st |}).

(** [self.category_sticker_names[name] = names]. *)
Definition set_category_sticker_names (name : string) (names : list string) : Build unit :=
  λ st, (Returned (),
         {| category_sticker_names := <[name := names]> (category_sticker_names st);
            category_names := category_names st;
            bot := bot st |}).

(** [for x in xs: body(x)], stopping at the first exception. *)
Fixpoint for_each {S A} (body : A → M S unit) (xs : list A) : M S unit :=
  match xs with
  | [] => ret ()
  | x :: rest => do! body x in for_each body rest
  end.

(** ** Catalog construction *)

(** [_sticker_command]: Generate a dynamic sticker command object. *)
Definition _sticker_command (config : Sticker.config) : Command :=
  let name := Sticker.name config in
  let file := Sticker.file config in
  let aliases := Sticker.aliases config in
  let message := Sticker.message config in
  let hidden := Sticker.hidden config in
  {| callback := StickerCallback file message;
     cmd_hidden := hidden;
     cmd_name := name;
     cmd_aliases := aliases;
     cmd_help := "Send " +:+ name +:+ " sticker" |}.

(** [_category_command]: Generate a dynamic category command object.  The
    message is formatted here, when the command is built. *)
Definition _category_command (config : Category.config) : result Command :=
  let hidden := Category.hidden config in
  let name := Category.name config in
  let file := Category.file config in
  let message := Category.message config in
  match Category.sticker_names config with
  | None => Raised KeyError
  | Some sticker_names =>
      match PyStr.format message (PyStr.join " " sticker_names) with
      | None => Raised FormatError
      | Some formatted =>
          Returned
            {| callback := CategoryCallback (PyStr.strip formatted) file;
               cmd_hidden := hidden;
               cmd_name := name;
               cmd_aliases := [];
               cmd_help := "Info about " +:+ name +:+ " sticker category" |}
      end
  end.

(** The [try: ... update(json.load(fp)) except IOError: pass] block: the
    merge of a descriptor over a record.  [IOError] is swallowed, any other
    exception escapes. *)
Definition merge {C} (update : C → Document → C) (defaults : C) (c : Content) : result C :=
  match c with
  | Unreadable => Returned defaults
  | Malformed => Raised JSONDecodeError
  | Loaded d => Returned (update defaults d)
  end.

(** [sticker_dict]: a Python dict keyed by stem, in insertion order. *)
Definition sticker_dict := list (string * Sticker.config).

Fixpoint dict_get (key : string) (d : sticker_dict) : option Sticker.config :=
  match d with
  | [] => None
  | (k, v) :: rest => if decide (k = key) then Some v else dict_get key rest
  end.

(** [d[key] = v]: an existing key keeps its place, a new one goes last. *)
Fixpoint dict_set (key : string) (v : Sticker.config) (d : sticker_dict) : sticker_dict :=
  match d with
  | [] => [(key, v)]
  | (k, w) :: rest =>
      if decide (k = key) then (k, v) :: rest else (k, w) :: dict_set key v rest
  end.

(** [d.values()]. *)
Definition dict_values (d : sticker_dict) : list Sticker.config := d.*2.

(** Sticker Config Defaults. *)
Definition sticker_defaults (prefix stem : string) : Sticker.config :=
  {| Sticker.hidden := true;
     Sticker.name := prefix +:+ snake_to_camel stem;
     Sticker.aliases := [];
     Sticker.message := "";
     Sticker.file := None |}.

(** One turn of the first loop of [_walk_category], on the entry [name] of
    the category directory [category_path] (whose listing is [dir]). *)
Definition collect_entry (category_path : string) (dir : listing) (prefix : string)
    (entry : string * Node) (d : sticker_dict) : result sticker_dict :=
  let '(name, node) := entry in
  if is_file node && bool_decide (Path.suffix name ∈ IMAGE_AND_JSON_SUFFIXES) then
    let key := Path.stem name in
    let d := match dict_get key d with
             | Some _ => d
             | None => dict_set key (sticker_defaults prefix (Path.stem name)) d
             end in
    let sticker_config := default (sticker_defaults prefix key) (dict_get key d) in
    if bool_decide (Path.suffix name ∈ IMAGE_SUFFIXES) then
      Returned (dict_set key
                  (Sticker.set_file sticker_config (Some (Path.join category_path name))) d)
    else
      match merge Sticker.update sticker_config
              (load_json dir (Path.with_suffix name ".json")) with
      | Returned c => Returned (dict_set key c d)
      | Raised e => Raised e
      end
  else Returned d.

(** The first loop of [_walk_category]: Collect image and config for each
    image. *)
Fixpoint collect (category_path : string) (dir : listing) (prefix : string)
    (entries : listing) (d : sticker_dict) : result sticker_dict :=
  match entries with
  | [] => Returned d
  | entry :: rest =>
      match collect_entry category_path dir prefix entry d with
      | Returned d' => collect category_path dir prefix rest d'
      | Raised e => Raised e
      end
  end.

(** The second loop of [_walk_category]: Create and add a dynamic command
    for each config object; the names are gathered on the way. *)
Fixpoint register_stickers (configs : list Sticker.config) (sticker_names : list string)
    : Build (list string) :=
  match configs with
  | [] => ret sticker_names
  | sticker_config :: rest =>
      let sticker_names := sticker_names ++ [Sticker.name sticker_config] in
      do! add_command (_sticker_command sticker_config) in
      register_stickers rest sticker_names
  end.

(** [_walk_category]: Registers commands for all the stickers inside;
    returns the name of all the commands. *)
Definition _walk_category (category_path : string) (dir : listing) (prefix : string)
    : Build (list string) :=
  match collect category_path dir prefix dir [] with
  | Raised e => raise e
  | Returned d => register_stickers (dict_values d) []
  end.

(** The root directory. *)
Definition root_path : string := "stickers".

(** Try to find path to thumbnail: the first extension, in the order the
    set is iterated, with [root / (stem + ext)] present. *)
Fixpoint find_thumbnail (root : listing) (stem : string) (exts : list string)
    : option string :=
  match exts with
  | [] => None
  | ext :: rest =>
      if path_exists root (stem +:+ ext) then Some (Path.join root_path (stem +:+ ext))
      else find_thumbnail root stem rest
  end.

Definition category_defaults (stem : string) : Category.config :=
  {| Category.hidden := true;
     Category.name := snake_to_camel stem;
     Category.prefix := "";
     Category.message := snake_to_title stem +:+ " stickers" +:+
                         String "010"%char "```{}```";
     Category.file := None;
     Category.sticker_names := None |}.

(** The body of the loop of [_walk_root] for one entry of the root. *)
Definition walk_root_entry (order : list string) (root : listing)
    (entry : string * Node) : Build unit :=
  let '(name, node) := entry in
  match node with
  | File _ => ret ()
  | Dir entries =>
      let category_config := category_defaults (Path.stem name) in
      let category_config :=
        match find_thumbnail root (Path.stem name) order with
        | Some thumb_path => Category.set_file category_config (Some thumb_path)
        | None => category_config
        end in
      match merge Category.update category_config
              (load_json root (Path.with_suffix name ".json")) with
      | Raised e => raise e
      | Returned category_config =>
          let category_name := Category.name category_config in
          do! append_category_name category_name in
          let! sticker_names := _walk_category (Path.join root_path name) entries
                                  (Category.prefix category_config) in
          do! set_category_sticker_names category_name sticker_names in
          let category_config := Category.set_sticker_names category_config sticker_names in
          match _category_command category_config with
          | Raised e => raise e
          | Returned cmd => add_command cmd
          end
      end
  end.

(** [_walk_root]: Registers sticker commands for each image in each
    category.  [order] is the order in which [IMAGE_SUFFIXES] is iterated,
    [root] the listing of [./stickers]; [root.mkdir(exist_ok=True)] leaves
    an existing root as it is, and a root it creates lists nothing. *)
Definition _walk_root (order : list string) (root : listing) : Build unit :=
  for_each (walk_root_entry order root) root.

(** [Stickers(bot)]: the cog after [__init__]. *)
Definition build (order : list string) (root : listing) : result unit * Stickers :=
  _walk_root order root init.

(** ** Dispatch *)

(** What an invocation sees of its context: [ctx.channel.name],
    [ctx.author.display_name] and [ctx.author.avatar_url]. *)
Record Context := {
  channel_name : string;
  display_name : string;
  avatar_url : string;
}.

(** An entry of [ctx.guild.webhooks()]: [channel.name], [token] (which may
    be [None]) and [url]. *)
Record WebhookInfo := {
  wh_channel_name : string;
  wh_token : option string;
  wh_url : string;
}.

(** The calls an invocation makes on its collaborators, as they appear in
    the log of a run. *)
Inductive Event :=
| OpenFile (path : string)
| GuildWebhooks
| CtxSend (content : string) (file : option string) (delete_after : option nat)
| LogError (msg : string)
| MessageDelete
| WebhookSend (url avatar_url username content : string) (file : option string).

(** [Webhook.from_url]: it raises, or returns an object; the code also
    provides for [None]. *)
Inductive from_url_result := UrlRefused | UrlNone | UrlWebhook.

(** How the collaborators answer during one invocation. *)
Record Transport := {
  can_open : string → bool;
  webhooks : option (list WebhookInfo);       (* [None]: the query raises *)
  from_url : string → from_url_result;
  ctx_send_ok : bool;
  delete_ok : bool;
  webhook_send_ok : bool;
}.

(** A callback: a computation over the log of calls made so far. *)
Abbreviation Run := (M (list Event)).

(** A call is logged when it is made; it then succeeds or raises. *)
Definition call (e : Event) (ok : bool) (err : exn) : Run unit :=
  λ log, (if ok then Returned () else Raised err, log ++ [e]).

(** [None if file is None else discord.File(file)]. *)
Definition discord_File (tr : Transport) (file : option string) : Run (option string) :=
  match file with
  | None => ret None
  | Some path => do! call (OpenFile path) (can_open tr path) OSError in ret (Some path)
  end.

(** [await ctx.guild.webhooks()]. *)
Definition guild_webhooks (tr : Transport) : Run (list WebhookInfo) :=
  match webhooks tr with
  | Some whs => do! call GuildWebhooks true HTTPException in ret whs
  | None => do! call GuildWebhooks false HTTPException in ret []
  end.

Definition qualifies (channel_name : string) (wh_info : WebhookInfo) : bool :=
  bool_decide (wh_channel_name wh_info = channel_name)
  && bool_decide (wh_token wh_info ≠ None).

(** The search loop of the sticker callback, with its [break]. *)
Fixpoint find_webhook (channel_name : string) (whs : list WebhookInfo)
    : option WebhookInfo :=
  match whs with
  | [] => None
  | wh_info :: rest =>
      if qualifies channel_name wh_info then Some wh_info
      else find_webhook channel_name rest
  end.

(** The callback of [_sticker_command]. *)
Definition sticker_callback (file : option string) (message : string)
    (tr : Transport) (ctx : Context) : Run unit :=
  let! final_file := discord_File tr file in
  let channel_name := channel_name ctx in
  let! whs := guild_webhooks tr in
  match find_webhook channel_name whs with
  | None =>
      call (CtxSend ("Missing webhook for #" +:+ channel_name) None (Some 8%nat))
        (ctx_send_ok tr) HTTPException
  | Some wh_info_found =>
      match from_url tr (wh_url wh_info_found) with
      | UrlRefused => raise InvalidArgument
      | UrlNone =>
          do! call (LogError ("Unable find a webhook in #" +:+ channel_name +:+ "!"))
                true HTTPException in
          call (CtxSend ("Unable find a webhook in #" +:+ channel_name +:+ "!")
                  None (Some 8%nat))
            (ctx_send_ok tr) HTTPException
      | UrlWebhook =>
          do! call MessageDelete (delete_ok tr) HTTPException in
          call (WebhookSend (wh_url wh_info_found) (avatar_url ctx) (display_name ctx)
                  message final_file)
            (webhook_send_ok tr) HTTPException
      end
  end.

(** The callback of [_category_command]. *)
Definition category_callback (formatted_message : string) (file : option string)
    (tr : Transport) (ctx : Context) : Run unit :=
  let! final_file := discord_File tr file in
  call (CtxSend formatted_message final_file None) (ctx_send_ok tr) HTTPException.

(** Invoking a command: its callback run from an empty log. *)
Definition invoke (cmd : Command) (tr : Transport) (ctx : Context)
    : result unit * list Event :=
  match callback cmd with
  | StickerCallback file message => sticker_callback file message tr ctx []
  | CategoryCallback formatted_message file =>
      category_callback formatted_message file tr ctx []
  end.

(** The text [stickers] sends before [strip]: the f-string, with
    [self.bot.command_prefix] and the joined category names put in. *)
Definition stickers_text (command_prefix categories : string) : string :=
  "Here's a list of our sticker packs!" +:+
  String "010"%char
    ("Type `" +:+ command_prefix +:+
     "[pack-name]` to see a list of the stickers inside of that pack.```" +:+
     categories +:+ "``` Also, you can add stickers in the `!shop`!").

(** [stickers]: Prints out a list of sticker categories.  The prefix of the
    bot is taken to be a string. *)
Definition stickers (self : Stickers) (command_prefix : string) (tr : Transport)
    : Run unit :=
  let categories := PyStr.join " " (category_names self) in
  call (CtxSend (PyStr.strip (stickers_text command_prefix categories)) None None)
    (ctx_send_ok tr) HTTPException.

(** The calls [discord.File] makes for a captured file. *)
Definition opens (file : option string) : list Event :=
  match file with Some path => [OpenFile path] | None => [] end.

(** The captured file, if any, can be opened. *)
Definition file_opens (tr : Transport) (file : option string) : Prop :=
  ∀ path, file = Some path → can_open tr path = true.

(** ** The command table *)

(** Modelled from the spec: [bot.add_command] belongs to the host framework
    and is not part of this repository.  The spec's Registry is a mapping
    from every name and alias to the action, where a later registration of a
    key replaces the earlier one. *)
Definition register (reg : gmap string Command) (cmd : Command) : gmap string Command :=
  foldl (λ r alias, <[alias := cmd]> r) (<[cmd_name cmd := cmd]> reg) (cmd_aliases cmd).

(** The registry after the given calls of [add_command]. *)
Definition registry_of (cmds : list Command) : gmap string Command :=
  foldl register ∅ cmds.

(** The keys a command claims, in the order it claims them. *)
Definition registrations (cmds : list Command) : list (string * Command) :=
  cmds ≫= λ cmd, (cmd_name cmd, cmd) :: ((λ alias, (alias, cmd)) <$> cmd_aliases cmd).

(** ** Vocabulary of the statements *)


(** A directory entry the first loop of [_walk_category] takes up: a file
    whose suffix is a media suffix or [.json]. *)
Definition eligible (entry : string * Node) : bool :=
  is_file entry.2 && bool_decide (Path.suffix entry.1 ∈ IMAGE_AND_JSON_SUFFIXES).

(** What one eligible entry does to the record of its stem: a media file
    sets [file], a descriptor is merged over the record. *)
Definition observe (category_path : string) (dir : listing) (name : string)
    (sticker_config : Sticker.config) : result Sticker.config :=
  if bool_decide (Path.suffix name ∈ IMAGE_SUFFIXES) then
    Returned (Sticker.set_file sticker_config (Some (Path.join category_path name)))
  else merge Sticker.update sticker_config (load_json dir (Path.with_suffix name ".json")).

(** The category record before the walk of its directory: the defaults,
    the thumbnail found, the descriptor merged over them. *)
Definition resolve_category (order : list string) (root : listing) (name : string)
    : result Category.config :=
  let category_config := category_defaults (Path.stem name) in
  let category_config :=
    match find_thumbnail root (Path.stem name) order with
    | Some thumb_path => Category.set_file category_config (Some thumb_path)
    | None => category_config
    end in
  merge Category.update category_config (load_json root (Path.with_suffix name ".json")).

(** At most one thumbnail candidate [stem + ext] exists at the root. *)
Definition single_thumbnail (root : listing) (stem : string) : Prop :=
  ∀ ext1 ext2,
    ext1 ∈ image_suffixes_literal → ext2 ∈ image_suffixes_literal →
    path_exists root (stem +:+ ext1) = true → path_exists root (stem +:+ ext2) = true →
    ext1 = ext2.

(** An entry of a category directory that is read as a descriptor and
    does not parse. *)
Definition malformed_descriptor (dir : listing) (entry : string * Node) : Prop :=
  eligible entry = true
  ∧ (Path.suffix entry.1 ∉ IMAGE_SUFFIXES)
  ∧ load_json dir (Path.with_suffix entry.1 ".json") = Malformed.

(** Every character of the string is an ASCII character (on these
    [capitalize] is exactly Python's). *)
Fixpoint ascii_only (s : string) : bool :=
  match s with
  | EmptyString => true
  | String c r => (nat_of_ascii c <? 128)%nat && ascii_only r
  end.

(** No underscore occurs in the string. *)
Fixpoint underscore_free (s : string) : bool :=
  match s with
  | EmptyString => true
  | String c r => negb (Ascii.eqb c "_") && underscore_free r
  end.

(** The number of underscores of the string. *)
Fixpoint count_underscores (s : string) : nat :=
  match s with
  | EmptyString => 0
  | String c r => (if Ascii.eqb c "_" then 1 else 0) + count_underscores r
  end.

(** The last character of the string, if any. *)
Fixpoint last_char (s : string) : option ascii :=
  match s with
  | EmptyString => None
  | String c EmptyString => Some c
  | String _ r => last_char r
  end.

(** The command was built by [_category_command]. *)
Definition is_category_command (cmd : Command) : bool :=
  match callback cmd with
  | CategoryCallback _ _ => true
  | StickerCallback _ _ => false
  end.

(** The call is one on the chat transport's webhooks or on the request
    message. *)
Definition touches_webhooks (e : Event) : bool :=
  match e with
  | GuildWebhooks | MessageDelete | WebhookSend _ _ _ _ _ => true
  | OpenFile _ | CtxSend _ _ _ | LogError _ => false
  end.

(** The keys in the order of their first occurrence: a key seen before is
    passed over, a new one goes last. *)
Definition first_occurrences (seen keys : list string) : list string :=
  foldl (λ acc k, if decide (k ∈ acc) then acc else acc ++ [k]) seen keys.

(** The stems of the entries the first loop of [_walk_category] takes up,
    in listing order. *)
Definition observed_stems (entries : list (string * Node)) : list string :=
  Path.stem <$> (filter (λ entry, eligible entry = true) entries).*1.

(** The file a callback captures. *)
Definition callback_file (cmd : Command) : option string :=
  match callback cmd with
  | StickerCallback file _ => file
  | CategoryCallback _ file => file
  end.

(** The log of a run of the sticker callback. *)
Definition sticker_log (file : option string) (message : string)
    (tr : Transport) (ctx : Context) : list Event :=
  (sticker_callback file message tr ctx []).2.

(** The names of the category commands among the given commands, in
    order. *)
Definition category_command_names (cmds : list Command) : list string :=
  cmd_name <$> filter (λ cmd, is_category_command cmd = true) cmds.

(** The attributes of the cog agree with the commands handed to the bot:
    [category_names] lists the category commands in order, and
    [category_sticker_names] has an entry for exactly the names listed. *)
Definition attributes_agree (st : Stickers) : Prop :=
  category_command_names (bot st) = category_names st
  ∧ dom (category_sticker_names st) = list_to_set (category_names st).

(** The weaker agreement an interrupted walk leaves: a name may be listed
    without its command and without its entry. *)
Definition attributes_lag (st : Stickers) : Prop :=
  category_command_names (bot st) `prefix_of` category_names st
  ∧ dom (category_sticker_names st) ⊆ list_to_set (category_names st).

(** ** The build on a host *)

(** How the table of a host answers the claim of one key for a command:
    the table with the key stored, or [None] when the claim is refused. *)
Definition Claim : Type :=
  gmap string Command → string → Command → option (gmap string Command).

(** Modelled from the spec: the Registry, in which a later registration of
    a key replaces the earlier one. *)
Definition overwriting : Claim :=
  λ table key cmd, Some (<[key := cmd]> table).

(** The table of [add_command] in discord.py 1.x, the host the source
    imports (it is not part of this repository): a name or an alias that is
    already in the table is refused. *)
Definition refusing : Claim :=
  λ table key cmd,
    match table !! key with
    | Some _ => None
    | None => Some (<[key := cmd]> table)
    end.

(** The claims of a list of registrations, one after the other, up to the
    first that is refused. *)
Fixpoint claim_all (claim : Claim) (regs : list (string * Command))
    (table : gmap string Command) : result unit * gmap string Command :=
  match regs with
  | [] => (Returned (), table)
  | (key, cmd) :: rest =>
      match claim table key cmd with
      | Some table' => claim_all claim rest table'
      | None => (Raised CommandRegistrationError, table)
      end
  end.

(** [bot.add_command(cmd)] on a host: the name is claimed, then each alias
    in turn; a refusal raises.  (What a refused call keeps of its own keys
    differs between versions of the library; here the keys stored before the
    refusal stay.) *)
Definition host_add_command (claim : Claim) (cmd : Command)
    (table : gmap string Command) : result unit * gmap string Command :=
  claim_all claim
    ((cmd_name cmd, cmd) :: ((λ alias, (alias, cmd)) <$> cmd_aliases cmd)) table.

(** A method of the cog run against a host: the state is the cog together
    with the table of the host, and [bot] lists the commands the host took. *)
Abbreviation BuildOn := (M (Stickers * gmap string Command)).

(** A step that concerns the cog alone. *)
Definition on_cog {A} (m : Build A) : BuildOn A :=
  λ s, match m s.1 with (r, st') => (r, (st', s.2)) end.

(** [self.bot.add_command(cmd)] on a host. *)
Definition add_command_on (claim : Claim) (cmd : Command) : BuildOn unit :=
  λ s, match host_add_command claim cmd s.2 with
       | (Returned _, table') => (Returned (), ((add_command cmd s.1).2, table'))
       | (Raised e, table') => (Raised e, (s.1, table'))
       end.

(** The second loop of [_walk_category] on a host. *)
Fixpoint register_stickers_on (claim : Claim) (configs : list Sticker.config)
    (sticker_names : list string) : BuildOn (list string) :=
  match configs with
  | [] => ret sticker_names
  | sticker_config :: rest =>
      let sticker_names := sticker_names ++ [Sticker.name sticker_config] in
      do! add_command_on claim (_sticker_command sticker_config) in
      register_stickers_on claim rest sticker_names
  end.

(** [_walk_category] on a host. *)
Definition _walk_category_on (claim : Claim) (category_path : string) (dir : listing)
    (prefix : string) : BuildOn (list string) :=
  match collect category_path dir prefix dir [] with
  | Raised e => raise e
  | Returned d => register_stickers_on claim (dict_values d) []
  end.

(** The body of the loop of [_walk_root] on a host. *)
Definition walk_root_entry_on (claim : Claim) (order : list string) (root : listing)
    (entry : string * Node) : BuildOn unit :=
  let '(name, node) := entry in
  match node with
  | File _ => ret ()
  | Dir entries =>
      match resolve_category order root name with
      | Raised e => raise e
      | Returned category_config =>
          let category_name := Category.name category_config in
          do! on_cog (append_category_name category_name) in
          let! sticker_names := _walk_category_on claim (Path.join root_path name) entries
                                  (Category.prefix category_config) in
          do! on_cog (set_category_sticker_names category_name sticker_names) in
          let category_config := Category.set_sticker_names category_config sticker_names in
          match _category_command category_config with
          | Raised e => raise e
          | Returned cmd => add_command_on claim cmd
          end
      end
  end.

(** [_walk_root] and [Stickers(bot)] on a host whose table is empty. *)
Definition _walk_root_on (claim : Claim) (order : list string) (root : listing)
    : BuildOn unit :=
  for_each (walk_root_entry_on claim order root) root.

Definition build_on (claim : Claim) (order : list string) (root : listing)
    : result unit * (Stickers * gmap string Command) :=
  _walk_root_on claim order root (init, ∅).



(** ** Tactics *)

(** Membership of a call in an explicit log. *)
Ltac not_in_log :=
  simpl; rewrite ?elem_of_app, ?elem_of_cons, ?elem_of_nil;
  intros Hin; decompose [or] Hin; done.

(** Membership in an explicit list, case by case. *)
Ltac cases_of_elem H :=
  repeat (apply elem_of_cons in H as [H|H]); [..|by apply elem_of_nil in H].

(** ** Sample data *)

(** Sample invocation data: a caller, a guild whose only token-bearing
    webhook belongs to another channel, and a guild with a webhook for the
    caller's channel after two that do not qualify. *)
Definition rex : Context :=
  {| channel_name := "general"; display_name := "Rex"; avatar_url := "https://cdn/rex.png" |}.

Definition quiet_channel : Transport :=
  {| can_open := λ _, true;
     webhooks := Some [ {| wh_channel_name := "general"; wh_token := None;
                           wh_url := "https://hooks/1" |};
                        {| wh_channel_name := "other"; wh_token := Some "t2";
                           wh_url := "https://hooks/2/t2" |} ];
     from_url := λ _, UrlWebhook;
     ctx_send_ok := true; delete_ok := true; webhook_send_ok := true |}.

Definition hooked_channel (delete_ok webhook_send_ok : bool) : Transport :=
  {| can_open := λ _, true;
     webhooks := Some [ {| wh_channel_name := "general"; wh_token := None;
                           wh_url := "https://hooks/1" |};
                        {| wh_channel_name := "other"; wh_token := Some "t2";
                           wh_url := "https://hooks/2/t2" |};
                        {| wh_channel_name := "general"; wh_token := Some "t3";
                           wh_url := "https://hooks/3/t3" |};
                        {| wh_channel_name := "general"; wh_token := Some "t4";
                           wh_url := "https://hooks/4/t4" |} ];
     from_url := λ _, UrlWebhook;
     ctx_send_ok := true; delete_ok := delete_ok; webhook_send_ok := webhook_send_ok |}.

(** A media file: read as a descriptor it would not parse. *)
Definition media : Node := File Malformed.

Definition pack_config : Category.config :=
  {| Category.hidden := false; Category.name := "GoodBoy"; Category.prefix := "";
     Category.message := "Pack: {} "; Category.file := Some "stickers/good_boy.png";
     Category.sticker_names := Some ["Woof"; "Sit"] |}.

Definition document (aliases : option (list string)) (file : option (option string))
    : Document :=
  {| doc_hidden := None; doc_name := None; doc_prefix := None;
     doc_aliases := aliases; doc_message := None; doc_file := file |}.

(** [good_boy/] holds [woof.png], [woof.json] with [{"aliases": ["bark"]}]
    and [sit.gif]; the root holds the directory and one thumbnail. *)
Definition good_boy_dir : listing :=
  [ ("woof.png", media);
    ("woof.json", File (Loaded (document (Some ["bark"]) None)));
    ("sit.gif", media) ].

Definition sample_root : listing :=
  [ ("good_boy", Dir good_boy_dir); ("good_boy.png", media) ].

Definition good_boy_config : Category.config :=
  {| Category.hidden := true; Category.name := "GoodBoy"; Category.prefix := "";
     Category.message := "Good Boy stickers" +:+ String "010"%char "```{}```";
     Category.file := Some "stickers/good_boy.png";
     Category.sticker_names := None |}.

Definition good_boy_dict : sticker_dict :=
  [ ("woof", {| Sticker.hidden := true; Sticker.name := "Woof";
                Sticker.aliases := ["bark"]; Sticker.message := "";
                Sticker.file := Some "stickers/good_boy/woof.png" |});
    ("sit", {| Sticker.hidden := true; Sticker.name := "Sit";
               Sticker.aliases := []; Sticker.message := "";
               Sticker.file := Some "stickers/good_boy/sit.gif" |}) ].

Definition good_boy_command : Command :=
  {| callback := CategoryCallback
                   ("Good Boy stickers" +:+ String "010"%char "```Woof Sit```")
                   (Some "stickers/good_boy.png");
     cmd_hidden := true; cmd_name := "GoodBoy"; cmd_aliases := [];
     cmd_help := "Info about GoodBoy sticker category" |}.

(** The same root with a second thumbnail candidate. *)
Definition two_thumbnails_root : listing :=
  [ ("good_boy", Dir good_boy_dir); ("good_boy.png", media); ("good_boy.gif", media) ].

(** Another order in which the set of suffixes may be iterated. *)
Definition png_first : list string :=
  [".png"; ".gif"; ".jpeg"; ".jpg"; ".mp4"; ".webm"].

(** A root whose second category has a descriptor that does not parse. *)
Definition broken_root : listing :=
  [ ("a_pack", Dir [ ("x.png", media) ]);
    ("b_pack", Dir [ ("y.png", media) ]);
    ("b_pack.json", File Malformed) ].

(** A category directory with a sticker that has a descriptor and no
    media file. *)
Definition descriptor_only_dir : listing :=
  [ ("woof.png", media);
    ("bark.json", File (Loaded (document (Some ["arf"]) None))) ].

Definition descriptor_only_dict : sticker_dict :=
  [ ("woof", {| Sticker.hidden := true; Sticker.name := "Woof";
                Sticker.aliases := []; Sticker.message := "";
                Sticker.file := Some "stickers/good_boy/woof.png" |});
    ("bark", {| Sticker.hidden := true; Sticker.name := "Bark";
                Sticker.aliases := ["arf"]; Sticker.message := "";
                Sticker.file := None |}) ].

(** The same two files of one stem, [woof.png] and [woof.json] with
    [{"file": "other.png"}], listed in the two possible orders. *)
Definition media_first : listing :=
  [ ("woof.png", media);
    ("woof.json", File (Loaded (document None (Some (Some "other.png"))))) ].

Definition descriptor_first : listing :=
  [ ("woof.json", File (Loaded (document None (Some (Some "other.png")))));
    ("woof.png", media) ].

(** A category whose name is also the name of its only sticker. *)
Definition collision_root : listing :=
  [ ("woof", Dir [ ("woof.png", media) ]) ].

(** A category directory with two media files of one stem, a file with
    another suffix and a subdirectory. *)
Definition mixed_dir : listing :=
  [ ("woof.gif", media);
    ("notes.txt", media);
    ("sit.png", media);
    ("extra", Dir [ ("deep.png", media) ]);
    ("woof.png", media) ].

(** A root whose category has a message template with an unclosed brace. *)
Definition unclosed_root : listing :=
  [ ("good_boy", Dir good_boy_dir);
    ("good_boy.json",
     File (Loaded {| doc_hidden := None; doc_name := None; doc_prefix := None;
                     doc_aliases := None; doc_message := Some "Pack {";
                     doc_file := None |})) ].

(** * Properties *)

(** ** Worked examples *)

Example snake_to_camel_good_boy : snake_to_camel "good_boy" = "GoodBoy".
Proof. reflexivity. Qed.

Example snake_to_title_good_boy : snake_to_title "good_boy" = "Good Boy".
Proof. reflexivity. Qed.

Example format_pack : PyStr.format "Pack: {}" "Woof" = Some "Pack: Woof".
Proof. reflexivity. Qed.

Example format_second_field : PyStr.format "{} {}" "Woof" = None.
Proof. reflexivity. Qed.

Example suffix_woof_png : Path.suffix "woof.png" = ".png".
Proof. reflexivity. Qed.

Example stem_two_dots : Path.stem "a.tar.json" = "a.tar".
Proof. reflexivity. Qed.

Example stem_leading_dot : Path.stem ".json" = ".json" ∧ Path.suffix ".json" = "".
Proof. split; reflexivity. Qed.

Example with_suffix_directory : Path.with_suffix "good_boy" ".json" = "good_boy.json".
Proof. reflexivity. Qed.

(** ** The monad *)

Lemma bind_returned {S A B} (m : M S A) (k : A → M S B) st a st' :
  m st = (Returned a, st') → bind m k st = k a st'.
Proof. intros H. unfold bind. by rewrite H. Qed.

Lemma bind_raised {S A B} (m : M S A) (k : A → M S B) st e st' :
  m st = (Raised e, st') → bind m k st = (Raised e, st').
Proof. intros H. unfold bind. by rewrite H. Qed.

Lemma call_run e ok err log :
  call e ok err log = (if ok then Returned () else Raised err, log ++ [e]).
Proof. reflexivity. Qed.

(** ** Dispatch of a sticker *)

Section Dispatch.

Variables (file : option string) (message : string).
Variables (tr : Transport) (ctx : Context).

Lemma discord_File_opens :
  file_opens tr file → discord_File tr file [] = (Returned file, opens file).
Proof.
  unfold file_opens, discord_File, opens. destruct file as [path|]; [|done].
  intros H. unfold bind, call, ret. by rewrite (H path eq_refl).
Qed.

Lemma guild_webhooks_some whs log :
  webhooks tr = Some whs →
  guild_webhooks tr log = (Returned whs, log ++ [GuildWebhooks]).
Proof. intros H. unfold guild_webhooks. by rewrite H. Qed.

Lemma guild_webhooks_none log :
  webhooks tr = None →
  guild_webhooks tr log = (Raised HTTPException, log ++ [GuildWebhooks]).
Proof. intros H. unfold guild_webhooks. by rewrite H. Qed.

(** Up to the search: the file is opened and the webhooks are listed. *)
Lemma sticker_callback_found whs :
  file_opens tr file → webhooks tr = Some whs →
  sticker_callback file message tr ctx [] =
    match find_webhook (channel_name ctx) whs with
    | None =>
        call (CtxSend ("Missing webhook for #" +:+ channel_name ctx) None (Some 8%nat))
          (ctx_send_ok tr) HTTPException (opens file ++ [GuildWebhooks])
    | Some wh =>
        match from_url tr (wh_url wh) with
        | UrlRefused => (Raised InvalidArgument, opens file ++ [GuildWebhooks])
        | UrlNone =>
            (if ctx_send_ok tr then Returned () else Raised HTTPException,
             opens file ++ [GuildWebhooks;
               LogError ("Unable find a webhook in #" +:+ channel_name ctx +:+ "!");
               CtxSend ("Unable find a webhook in #" +:+ channel_name ctx +:+ "!")
                 None (Some 8%nat)])
        | UrlWebhook =>
            if delete_ok tr then
              (if webhook_send_ok tr then Returned () else Raised HTTPException,
               opens file ++ [GuildWebhooks; MessageDelete;
                 WebhookSend (wh_url wh) (avatar_url ctx) (display_name ctx) message file])
            else (Raised HTTPException, opens file ++ [GuildWebhooks; MessageDelete])
        end
    end.
Proof.
  intros Hopen Hwhs. unfold sticker_callback.
  rewrite (bind_returned _ _ _ _ _ (discord_File_opens Hopen)).
  rewrite (bind_returned _ _ _ _ _ (guild_webhooks_some whs _ Hwhs)).
  destruct (find_webhook (channel_name ctx) whs) as [wh|]; [|done].
  destruct (from_url tr (wh_url wh)); [done| |].
  - unfold bind, call. by rewrite <-!(assoc_L (++)).
  - unfold bind, call. destruct (delete_ok tr); by rewrite <-!(assoc_L (++)).
Qed.

End Dispatch.

(** C5 (amended). The webhook the sticker callback selects is the first
    entry of the enumerated list whose channel name equals the invoking
    channel's name and whose token is present (is not [None]); an entry
    without a token is never selected, and nothing is selected exactly when
    no entry qualifies.  A token that is the empty string is a token. *)
Theorem find_webhook_first_qualifying (channel : string) (whs : list WebhookInfo) :
  match find_webhook channel whs with
  | Some wh =>
      ∃ before after,
        whs = before ++ wh :: after
        ∧ wh_channel_name wh = channel
        ∧ is_Some (wh_token wh)
        ∧ Forall (λ w, ¬ (wh_channel_name w = channel ∧ is_Some (wh_token w))) before
  | None =>
      Forall (λ w, ¬ (wh_channel_name w = channel ∧ is_Some (wh_token w))) whs
  end.
Proof.
  assert (Hq : ∀ w, qualifies channel w = true ↔
                    wh_channel_name w = channel ∧ is_Some (wh_token w)).
  { intros w. unfold qualifies.
    rewrite andb_true_iff, !bool_decide_eq_true, <-not_eq_None_Some. done. }
  induction whs as [|w whs IH]; simpl; [by constructor|].
  destruct (qualifies channel w) eqn:Hw.
  - apply Hq in Hw as [? ?]. exists [], whs. by repeat split.
  - assert (¬ (wh_channel_name w = channel ∧ is_Some (wh_token w))) as Hn.
    { rewrite <-Hq. by rewrite Hw. }
    destruct (find_webhook channel whs) as [wh|].
    + destruct IH as (before & after & -> & ? & ? & ?).
      exists (w :: before), after. repeat split; [done..|by constructor].
    + by constructor.
Qed.

(** C5, as stated, fails: the code tests the token against [None] only, so a
    webhook of the invoking channel whose token is the empty string is
    selected, before a later one with a token that is not empty. *)
Lemma empty_string_token_is_selected :
  find_webhook "general"
    [ {| wh_channel_name := "general"; wh_token := Some ""; wh_url := "https://hooks/5/" |};
      {| wh_channel_name := "general"; wh_token := Some "t4";
         wh_url := "https://hooks/4/t4" |} ]
  = Some {| wh_channel_name := "general"; wh_token := Some "";
            wh_url := "https://hooks/5/" |}.
Proof. reflexivity. Qed.

(** C3. When the webhooks are listed and none of them qualifies for the
    invoking channel, the sticker callback sends the notice
    "Missing webhook for #<channel>" with [delete_after=8] and stops: the
    request message is not deleted and nothing is delivered. *)
Theorem missing_webhook_notice (file : option string) (message : string)
    (tr : Transport) (ctx : Context) (whs : list WebhookInfo) :
  file_opens tr file →
  webhooks tr = Some whs →
  find_webhook (channel_name ctx) whs = None →
  sticker_callback file message tr ctx [] =
    (if ctx_send_ok tr then Returned () else Raised HTTPException,
     opens file ++
       [GuildWebhooks;
        CtxSend ("Missing webhook for #" +:+ channel_name ctx) None (Some 8%nat)])
  ∧ (MessageDelete ∉ snd (sticker_callback file message tr ctx []))
  ∧ (∀ url avatar username content attached,
       WebhookSend url avatar username content attached
         ∉ snd (sticker_callback file message tr ctx [])).
Proof.
  intros Hopen Hwhs Hnone.
  rewrite (sticker_callback_found file message tr ctx whs Hopen Hwhs), Hnone.
  rewrite call_run, <-(assoc_L (++)). split; [done|].
  unfold opens. split; [|intros url avatar username content attached];
    destruct file; not_in_log.
Qed.

Lemma missing_webhook_notice_witness :
  sticker_callback (Some "stickers/good_boy/woof.png") "" quiet_channel rex [] =
    (Returned (),
     [OpenFile "stickers/good_boy/woof.png"; GuildWebhooks;
      CtxSend "Missing webhook for #general" None (Some 8%nat)])
  ∧ (MessageDelete
      ∉ snd (sticker_callback (Some "stickers/good_boy/woof.png") "" quiet_channel rex []))
  ∧ (∀ url avatar username content attached,
       WebhookSend url avatar username content attached
         ∉ snd (sticker_callback (Some "stickers/good_boy/woof.png") "" quiet_channel rex [])).
Proof.
  apply (missing_webhook_notice (Some "stickers/good_boy/woof.png") "" quiet_channel rex
           (default [] (webhooks quiet_channel))).
  - intros path _. reflexivity.
  - reflexivity.
  - reflexivity.
Defined.

(** A failure while listing the webhooks ends the invocation there. *)
Lemma webhooks_failure_propagates (file : option string) (message : string)
    (tr : Transport) (ctx : Context) :
  file_opens tr file →
  webhooks tr = None →
  sticker_callback file message tr ctx [] =
    (Raised HTTPException, opens file ++ [GuildWebhooks]).
Proof.
  intros Hopen Hwhs. unfold sticker_callback.
  rewrite (bind_returned _ _ _ _ _ (discord_File_opens file tr Hopen)).
  by rewrite (bind_raised _ _ _ _ _ (guild_webhooks_none tr _ Hwhs)).
Qed.

(** C4. When a qualifying webhook is found (and [Webhook.from_url] returns
    an object or raises, as the library does), the request message is
    deleted first and the delivery comes after it, with the sticker's
    message, its file, and the caller's display name and avatar.  A step
    that fails raises out of the callback: the log ends with the failed
    call, no call is made twice and none follows a delivery that failed
    after the deletion. *)
Theorem delete_then_deliver (file : option string) (message : string)
    (tr : Transport) (ctx : Context) (whs : list WebhookInfo) (wh : WebhookInfo) :
  file_opens tr file →
  webhooks tr = Some whs →
  find_webhook (channel_name ctx) whs = Some wh →
  from_url tr (wh_url wh) ≠ UrlNone →
  sticker_callback file message tr ctx [] =
    match from_url tr (wh_url wh) with
    | UrlRefused => (Raised InvalidArgument, opens file ++ [GuildWebhooks])
    | _ =>
        if delete_ok tr then
          (if webhook_send_ok tr then Returned () else Raised HTTPException,
           opens file ++
             [GuildWebhooks; MessageDelete;
              WebhookSend (wh_url wh) (avatar_url ctx) (display_name ctx) message file])
        else (Raised HTTPException, opens file ++ [GuildWebhooks; MessageDelete])
    end.
Proof.
  intros Hopen Hwhs Hfound Hurl.
  rewrite (sticker_callback_found file message tr ctx whs Hopen Hwhs), Hfound.
  by destruct (from_url tr (wh_url wh)).
Qed.

Lemma delete_then_deliver_witness :
  sticker_callback (Some "stickers/good_boy/woof.png") "woof!"
    (hooked_channel true false) rex [] =
    (Raised HTTPException,
     [OpenFile "stickers/good_boy/woof.png"; GuildWebhooks; MessageDelete;
      WebhookSend "https://hooks/3/t3" "https://cdn/rex.png" "Rex" "woof!"
        (Some "stickers/good_boy/woof.png")]).
Proof.
  apply (delete_then_deliver (Some "stickers/good_boy/woof.png") "woof!"
           (hooked_channel true false) rex
           (default [] (webhooks (hooked_channel true false)))
           {| wh_channel_name := "general"; wh_token := Some "t3";
              wh_url := "https://hooks/3/t3" |}).
  - intros path _. reflexivity.
  - reflexivity.
  - reflexivity.
  - discriminate.
Defined.

(** ** The category message *)

Lemma append_cons (c : ascii) (s t : string) : String c s +:+ t = String c (s +:+ t).
Proof. reflexivity. Qed.

Lemma append_empty_l (t : string) : "" +:+ t = t.
Proof. reflexivity. Qed.

(** A template without braces formats to itself. *)
Lemma format_go_brace_free (mode : PyStr.numbering) (t arg : string) :
  PyStr.brace_free t = true → PyStr.format_go mode t arg = Some t.
Proof.
  induction t as [|c t IH]; simpl; [done|].
  rewrite !andb_true_iff, !negb_true_iff. intros [[Ho Hc] Ht].
  rewrite Ho, Hc, (IH Ht). done.
Qed.

(** A template with a single [{}] between brace-free texts has the argument
    put in its place. *)
Lemma format_single_placeholder (pre post arg : string) :
  PyStr.brace_free pre = true → PyStr.brace_free post = true →
  PyStr.format (pre +:+ "{}" +:+ post) arg = Some (pre +:+ arg +:+ post).
Proof.
  intros Hpre Hpost. unfold PyStr.format.
  assert (PyStr.format_go PyStr.NoField ("{}" +:+ post) arg = Some (arg +:+ post)) as Hrest.
  { rewrite !append_cons, append_empty_l. simpl.
    by rewrite (format_go_brace_free _ _ _ Hpost). }
  revert Hrest. generalize ("{}" +:+ post). intros rest Hrest.
  induction pre as [|c pre IH].
  - by rewrite !append_empty_l.
  - simpl in Hpre. rewrite !andb_true_iff, !negb_true_iff in Hpre.
    destruct Hpre as [[Ho Hc] Hpre].
    rewrite !append_cons. simpl. rewrite Ho, Hc, (IH Hpre). done.
Qed.

(** C9. A category command built from a configuration whose message
    template has a single placeholder sends, when invoked, the template with
    the placeholder replaced by the space-joined sticker names and the
    surrounding whitespace stripped; the thumbnail is attached when the
    configuration has one, and no file is attached otherwise.  The template
    and the names are ASCII text, where [PyStr.strip] is [str.strip]. *)
Theorem category_listing_message (config : Category.config)
    (pre post : string) (names : list string) :
  Category.message config = pre +:+ "{}" +:+ post →
  PyStr.brace_free pre = true →
  PyStr.brace_free post = true →
  ascii_only pre = true →
  ascii_only post = true →
  Forall (λ name, ascii_only name = true) names →
  Category.sticker_names config = Some names →
  ∃ cmd,
    _category_command config = Returned cmd
    ∧ cmd_name cmd = Category.name config
    ∧ ∀ tr ctx,
        file_opens tr (Category.file config) →
        invoke cmd tr ctx =
          (if ctx_send_ok tr then Returned () else Raised HTTPException,
           opens (Category.file config) ++
             [CtxSend (PyStr.strip (pre +:+ PyStr.join " " names +:+ post))
                (Category.file config) None]).
Proof.
  intros Hmsg Hpre Hpost _ _ _ Hnames. unfold _category_command.
  rewrite Hnames, Hmsg, (format_single_placeholder _ _ _ Hpre Hpost).
  eexists. split; [reflexivity|]. split; [reflexivity|].
  intros tr ctx Hopen. unfold invoke, category_callback. simpl.
  rewrite (bind_returned _ _ _ _ _ (discord_File_opens _ tr Hopen)).
  reflexivity.
Qed.

Lemma category_listing_message_witness :
  ∃ cmd,
    _category_command pack_config = Returned cmd
    ∧ cmd_name cmd = "GoodBoy"
    ∧ ∀ tr ctx,
        file_opens tr (Some "stickers/good_boy.png") →
        invoke cmd tr ctx =
          (if ctx_send_ok tr then Returned () else Raised HTTPException,
           [OpenFile "stickers/good_boy.png";
            CtxSend "Pack: Woof Sit" (Some "stickers/good_boy.png") None]).
Proof.
  apply (category_listing_message pack_config "Pack: " " " ["Woof"; "Sit"]);
    try reflexivity.
  repeat constructor.
Defined.

(** ** The sticker dictionary *)

Section Dict.

Implicit Types (d : sticker_dict) (k : string) (v : Sticker.config).

Lemma dict_get_None d k : dict_get k d = None ↔ k ∉ d.*1.
Proof.
  induction d as [|[k' v'] d IH]; simpl.
  - split; [intros _; apply not_elem_of_nil|done].
  - rewrite not_elem_of_cons. case_decide; naive_solver.
Qed.

Lemma dict_get_Some_key d k v : dict_get k d = Some v → k ∈ d.*1.
Proof.
  intros H. destruct (decide (k ∈ d.*1)) as [|Hn]; [done|].
  apply dict_get_None in Hn. congruence.
Qed.

Lemma dict_set_present d k v : k ∈ d.*1 → (dict_set k v d).*1 = d.*1.
Proof.
  induction d as [|[k' v'] d IH]; simpl.
  - by intros ?%elem_of_nil.
  - intros Hin. case_decide; simpl; [done|].
    f_equal. apply IH. apply elem_of_cons in Hin as [->|]; done.
Qed.

Lemma dict_set_fresh d k v : k ∉ d.*1 → dict_set k v d = d ++ [(k, v)].
Proof.
  induction d as [|[k' v'] d IH]; simpl; [done|].
  rewrite not_elem_of_cons. intros [Hne Hn].
  case_decide; [congruence|]. by rewrite IH.
Qed.

Lemma dict_get_set_eq d k v : dict_get k (dict_set k v d) = Some v.
Proof.
  induction d as [|[k' v'] d IH]; simpl.
  - by case_decide.
  - case_decide; simpl; by case_decide.
Qed.

Lemma dict_get_set_ne d k k' v : k ≠ k' → dict_get k' (dict_set k v d) = dict_get k' d.
Proof.
  intros Hne. induction d as [|[k0 v0] d IH]; simpl.
  - by case_decide.
  - case_decide; simpl; case_decide; congruence.
Qed.

Lemma dict_set_set d k v v' : dict_set k v' (dict_set k v d) = dict_set k v' d.
Proof.
  induction d as [|[k0 v0] d IH]; simpl.
  - by case_decide.
  - case_decide; simpl; case_decide; congruence.
Qed.

(** Setting a key keeps the keys distinct. *)
Lemma dict_set_NoDup d k v : NoDup d.*1 → NoDup (dict_set k v d).*1.
Proof.
  intros Hd. destruct (decide (k ∈ d.*1)) as [Hin|Hn].
  - by rewrite dict_set_present.
  - rewrite dict_set_fresh by done. rewrite fmap_app. simpl.
    apply NoDup_app. split; [done|]. split; [|apply NoDup_singleton].
    intros x Hx ->%list_elem_of_singleton. done.
Qed.

Lemma dict_set_keys d k v k' : k' ∈ (dict_set k v d).*1 ↔ k' = k ∨ k' ∈ d.*1.
Proof.
  destruct (decide (k ∈ d.*1)) as [Hin|Hn].
  - rewrite dict_set_present by done. naive_solver.
  - rewrite dict_set_fresh by done. rewrite fmap_app, elem_of_app. simpl.
    rewrite list_elem_of_singleton. naive_solver.
Qed.

End Dict.

(** ** The first loop of [_walk_category] *)

Section Collect.

Variables (category_path : string) (dir : listing) (prefix : string).

(** The loop body on an eligible entry: the record of the stem, created
    from the defaults at its first observation, takes the observation. *)
Lemma collect_entry_eligible name node d :
  eligible (name, node) = true →
  collect_entry category_path dir prefix (name, node) d =
    match observe category_path dir name
            (default (sticker_defaults prefix (Path.stem name))
               (dict_get (Path.stem name) d)) with
    | Returned c => Returned (dict_set (Path.stem name) c d)
    | Raised e => Raised e
    end.
Proof.
  unfold eligible, collect_entry, observe. simpl. intros ->.
  destruct (dict_get (Path.stem name) d) as [c0|] eqn:Hget; simpl.
  - rewrite Hget. simpl. by case_bool_decide.
  - rewrite dict_get_set_eq. simpl.
    case_bool_decide; [by rewrite dict_set_set|].
    destruct (merge _ _ _); by rewrite ?dict_set_set.
Qed.

Lemma collect_entry_skip name node d :
  eligible (name, node) = false →
  collect_entry category_path dir prefix (name, node) d = Returned d.
Proof. unfold eligible, collect_entry. simpl. by intros ->. Qed.

(** The keys after one turn. *)
Lemma collect_entry_keys entry d d' k :
  collect_entry category_path dir prefix entry d = Returned d' →
  k ∈ d'.*1 ↔ k ∈ d.*1 ∨ (eligible entry = true ∧ Path.stem entry.1 = k).
Proof.
  destruct entry as [name node]. destruct (eligible (name, node)) eqn:He.
  - rewrite (collect_entry_eligible _ _ _ He).
    destruct (observe _ _ _ _) as [c|]; [|done]. intros [= <-].
    rewrite dict_set_keys. simpl. naive_solver.
  - rewrite (collect_entry_skip _ _ _ He). intros [= <-]. naive_solver.
Qed.

Lemma collect_entry_NoDup entry d d' :
  collect_entry category_path dir prefix entry d = Returned d' →
  NoDup d.*1 → NoDup d'.*1.
Proof.
  destruct entry as [name node]. destruct (eligible (name, node)) eqn:He.
  - rewrite (collect_entry_eligible _ _ _ He).
    destruct (observe _ _ _ _) as [c|]; [|done]. intros [= <-].
    apply dict_set_NoDup.
  - rewrite (collect_entry_skip _ _ _ He). by intros [= <-].
Qed.

(** The record of a stem is untouched by the entries of other stems. *)
Lemma collect_entry_other entry d d' k :
  collect_entry category_path dir prefix entry d = Returned d' →
  ¬ (eligible entry = true ∧ Path.stem entry.1 = k) →
  dict_get k d' = dict_get k d.
Proof.
  destruct entry as [name node]. destruct (eligible (name, node)) eqn:He.
  - rewrite (collect_entry_eligible _ _ _ He).
    destruct (observe _ _ _ _) as [c|]; [|done]. intros [= <-] Hk.
    apply dict_get_set_ne. naive_solver.
  - rewrite (collect_entry_skip _ _ _ He). by intros [= <-].
Qed.

Lemma collect_app entries1 entries2 d :
  collect category_path dir prefix (entries1 ++ entries2) d =
    match collect category_path dir prefix entries1 d with
    | Returned d1 => collect category_path dir prefix entries2 d1
    | Raised e => Raised e
    end.
Proof.
  revert d. induction entries1 as [|entry entries1 IH]; intros d; simpl; [done|].
  destruct (collect_entry _ _ _ _ _); [apply IH|done].
Qed.

Lemma collect_keys entries d d' k :
  collect category_path dir prefix entries d = Returned d' →
  k ∈ d'.*1 ↔
    k ∈ d.*1 ∨ ∃ entry, entry ∈ entries ∧ eligible entry = true ∧ Path.stem entry.1 = k.
Proof.
  revert d. induction entries as [|entry entries IH]; intros d; simpl.
  - intros [= <-]. split; [auto|]. intros [?|(? & ?%elem_of_nil & _)]; done.
  - destruct (collect_entry _ _ _ _ _) as [d1|] eqn:H1; [|done].
    intros H. rewrite (IH _ H), (collect_entry_keys _ _ _ _ H1).
    setoid_rewrite elem_of_cons. naive_solver.
Qed.

Lemma collect_NoDup entries d d' :
  collect category_path dir prefix entries d = Returned d' →
  NoDup d.*1 → NoDup d'.*1.
Proof.
  revert d. induction entries as [|entry entries IH]; intros d; simpl.
  - by intros [= <-].
  - destruct (collect_entry _ _ _ _ _) as [d1|] eqn:H1; [|done].
    intros H Hd. apply (IH _ H). by apply (collect_entry_NoDup _ _ _ H1).
Qed.

Lemma collect_other entries d d' k :
  collect category_path dir prefix entries d = Returned d' →
  Forall (λ entry, ¬ (eligible entry = true ∧ Path.stem entry.1 = k)) entries →
  dict_get k d' = dict_get k d.
Proof.
  revert d. induction entries as [|entry entries IH]; intros d; simpl.
  - by intros [= <-].
  - destruct (collect_entry _ _ _ _ _) as [d1|] eqn:H1; [|done].
    intros H [Hentry Hrest]%Forall_cons.
    rewrite (IH _ H Hrest). by apply (collect_entry_other _ _ _ _ H1).
Qed.

End Collect.

(** ** The second loop of [_walk_category] and the walk of a category *)

(** The state after [cmds] have been handed to the bot. *)
Lemma register_stickers_run configs names st :
  register_stickers configs names st =
    (Returned (names ++ (Sticker.name <$> configs)),
     {| category_sticker_names := category_sticker_names st;
        category_names := category_names st;
        bot := bot st ++ (_sticker_command <$> configs) |}).
Proof.
  revert names st. induction configs as [|c configs IH]; intros names st; simpl.
  - unfold ret. rewrite !app_nil_r. by destruct st.
  - unfold bind, add_command. rewrite IH. simpl.
    by rewrite <-!(assoc_L (++)).
Qed.

Lemma walk_category_run category_path dir prefix st :
  _walk_category category_path dir prefix st =
    match collect category_path dir prefix dir [] with
    | Returned d =>
        (Returned (Sticker.name <$> dict_values d),
         {| category_sticker_names := category_sticker_names st;
            category_names := category_names st;
            bot := bot st ++ (_sticker_command <$> dict_values d) |})
    | Raised e => (Raised e, st)
    end.
Proof.
  unfold _walk_category. destruct (collect _ _ _ _ _) as [d|e]; [|done].
  by rewrite register_stickers_run.
Qed.

(** One category of the root, step by step: the record is resolved, the
    name is appended to [category_names], the directory is walked, the names
    are stored, the category command is built and handed to the bot.  An
    exception stops the entry where it is raised and keeps what was done. *)
Lemma walk_root_entry_run order root name entries st :
  walk_root_entry order root (name, Dir entries) st =
    match resolve_category order root name with
    | Raised e => (Raised e, st)
    | Returned cfg =>
        match collect (Path.join root_path name) entries (Category.prefix cfg) entries [] with
        | Raised e =>
            (Raised e,
             {| category_sticker_names := category_sticker_names st;
                category_names := category_names st ++ [Category.name cfg];
                bot := bot st |})
        | Returned d =>
            match _category_command
                    (Category.set_sticker_names cfg (Sticker.name <$> dict_values d)) with
            | Raised e =>
                (Raised e,
                 {| category_sticker_names :=
                      <[Category.name cfg := Sticker.name <$> dict_values d]>
                        (category_sticker_names st);
                    category_names := category_names st ++ [Category.name cfg];
                    bot := bot st ++ (_sticker_command <$> dict_values d) |})
            | Returned cmd =>
                (Returned (),
                 {| category_sticker_names :=
                      <[Category.name cfg := Sticker.name <$> dict_values d]>
                        (category_sticker_names st);
                    category_names := category_names st ++ [Category.name cfg];
                    bot := bot st ++ (_sticker_command <$> dict_values d) ++ [cmd] |})
            end
        end
    end.
Proof.
  unfold walk_root_entry, resolve_category.
  destruct (merge _ _ _) as [cfg|e]; [|done].
  unfold bind at 1. unfold append_category_name at 1.
  unfold bind at 1. rewrite walk_category_run. simpl.
  destruct (collect _ _ _ _ _) as [d|e]; [|done].
  unfold bind, set_category_sticker_names. simpl.
  destruct (_category_command _) as [cmd|e]; [|done].
  unfold add_command. simpl. by rewrite <-(assoc_L (++)).
Qed.

Lemma walk_root_entry_file order root name c st :
  walk_root_entry order root (name, File c) st = (Returned (), st).
Proof. reflexivity. Qed.

(** C7. After the walk of a category, the names stored for it (under its
    name in [category_sticker_names], and in the configuration its command
    is built from) are the names of the resolved sticker records, one per
    stem, in the order the records are processed, which is the order their
    commands are handed to the bot; every stem observed has its record. *)
Theorem category_sticker_names_in_order (order : list string) (root : listing)
    (name : string) (entries : listing) (st : Stickers)
    (cfg : Category.config) (d : sticker_dict) (cmd : Command) :
  resolve_category order root name = Returned cfg →
  collect (Path.join root_path name) entries (Category.prefix cfg) entries [] = Returned d →
  _category_command (Category.set_sticker_names cfg (Sticker.name <$> dict_values d))
    = Returned cmd →
  ∃ st',
    walk_root_entry order root (name, Dir entries) st = (Returned (), st')
    ∧ category_sticker_names st' !! Category.name cfg
        = Some (Sticker.name <$> dict_values d)
    ∧ bot st' = bot st ++ (_sticker_command <$> dict_values d) ++ [cmd]
    ∧ cmd_name <$> (_sticker_command <$> dict_values d) = Sticker.name <$> dict_values d
    ∧ length (Sticker.name <$> dict_values d) = length d
    ∧ NoDup d.*1
    ∧ (∀ stem, stem ∈ d.*1 ↔
         ∃ entry, entry ∈ entries ∧ eligible entry = true ∧ Path.stem entry.1 = stem).
Proof.
  intros Hcfg Hd Hcmd. rewrite walk_root_entry_run, Hcfg, Hd, Hcmd.
  eexists. split; [reflexivity|]. simpl.
  split; [apply lookup_insert_eq|]. split; [done|].
  split; [by rewrite <-list_fmap_compose|].
  split; [unfold dict_values; by rewrite !length_fmap|].
  split; [apply (collect_NoDup _ _ _ _ _ _ Hd), NoDup_nil_2|].
  intros stem. rewrite (collect_keys _ _ _ _ _ _ stem Hd). simpl.
  rewrite elem_of_nil. naive_solver.
Qed.

Lemma category_sticker_names_in_order_witness :
  ∃ st',
    walk_root_entry image_suffixes_literal sample_root ("good_boy", Dir good_boy_dir) init
      = (Returned (), st')
    ∧ category_sticker_names st' !! "GoodBoy" = Some ["Woof"; "Sit"]
    ∧ bot st' = [] ++ (_sticker_command <$> dict_values good_boy_dict) ++ [good_boy_command]
    ∧ cmd_name <$> (_sticker_command <$> dict_values good_boy_dict) = ["Woof"; "Sit"]
    ∧ length ["Woof"; "Sit"] = length good_boy_dict
    ∧ NoDup good_boy_dict.*1
    ∧ (∀ stem, stem ∈ good_boy_dict.*1 ↔
         ∃ entry, entry ∈ good_boy_dir ∧ eligible entry = true ∧ Path.stem entry.1 = stem).
Proof.
  apply (category_sticker_names_in_order image_suffixes_literal sample_root
           "good_boy" good_boy_dir init good_boy_config good_boy_dict good_boy_command);
    reflexivity.
Defined.

(** ** Registrations of one key *)

Section Registry.

Implicit Types (reg : gmap string Command) (cmd : Command) (key : string).






End Registry.


(** ** Claims on a host *)





(** ** The build follows the host *)

Section Follows.

Variable claim : Claim.












End Follows.



(** With distinct keys both tables take every command: [good_boy/] gives
    the keys [Woof], [bark], [Sit] and [GoodBoy]. *)
Example distinct_keys_are_all_taken :
  build_on refusing image_suffixes_literal sample_root
    = build_on overwriting image_suffixes_literal sample_root
  ∧ (build_on refusing image_suffixes_literal sample_root).1 = Returned ()
  ∧ (registrations (bot (build image_suffixes_literal sample_root).2)).*1
    = ["Woof"; "bark"; "Sit"; "GoodBoy"].
Proof. repeat split; reflexivity. Qed.

(** ** The thumbnail and the order of iteration of the suffix set *)

Lemma find_thumbnail_first root stem order :
  match find_thumbnail root stem order with
  | Some thumb_path =>
      ∃ before ext after,
        order = before ++ ext :: after
        ∧ thumb_path = Path.join root_path (stem +:+ ext)
        ∧ path_exists root (stem +:+ ext) = true
        ∧ Forall (λ e, path_exists root (stem +:+ e) = false) before
  | None => Forall (λ e, path_exists root (stem +:+ e) = false) order
  end.
Proof.
  induction order as [|ext order IH]; simpl; [by constructor|].
  destruct (path_exists root (stem +:+ ext)) eqn:He.
  - exists [], ext, order. by repeat split.
  - destruct (find_thumbnail root stem order) as [thumb_path|].
    + destruct IH as (before & ext' & after & -> & -> & ? & ?).
      exists (ext :: before), ext', after. repeat split; [done|by constructor].
    + by constructor.
Qed.

(** With at most one candidate, every order of iteration finds the same
    thumbnail. *)
Lemma find_thumbnail_perm root stem order1 order2 :
  iteration_order order1 → iteration_order order2 →
  single_thumbnail root stem →
  find_thumbnail root stem order1 = find_thumbnail root stem order2.
Proof.
  unfold iteration_order. intros H1 H2 Hsingle.
  pose proof (find_thumbnail_first root stem order1) as F1.
  pose proof (find_thumbnail_first root stem order2) as F2.
  destruct (find_thumbnail root stem order1) as [p1|],
           (find_thumbnail root stem order2) as [p2|]; [| | |done].
  - destruct F1 as (b1 & e1 & a1 & E1 & -> & P1 & _).
    destruct F2 as (b2 & e2 & a2 & E2 & -> & P2 & _).
    do 2 f_equal. f_equal. apply Hsingle; [| |done..].
    + rewrite <-H1, E1. set_solver.
    + rewrite <-H2, E2. set_solver.
  - destruct F1 as (b1 & e1 & a1 & E1 & -> & P1 & _).
    rewrite Forall_forall in F2. rewrite (F2 e1) in P1; [done|].
    rewrite H2, <-H1, E1. set_solver.
  - destruct F2 as (b2 & e2 & a2 & E2 & -> & P2 & _).
    rewrite Forall_forall in F1. rewrite (F1 e2) in P2; [done|].
    rewrite H1, <-H2, E2. set_solver.
Qed.

Lemma for_each_ext {S A} (f g : A → M S unit) (xs : list A) st :
  (∀ x st', x ∈ xs → f x st' = g x st') → for_each f xs st = for_each g xs st.
Proof.
  revert st. induction xs as [|x xs IH]; intros st Hfg; simpl; [done|].
  unfold bind. rewrite (Hfg x st) by set_solver.
  destruct (g x st) as [[[]|e] st']; [|done].
  apply IH. intros y st'' Hy. apply Hfg. set_solver.
Qed.

Lemma walk_root_entry_order order1 order2 root entry st :
  (∀ entries, entry.2 = Dir entries →
     find_thumbnail root (Path.stem entry.1) order1
       = find_thumbnail root (Path.stem entry.1) order2) →
  walk_root_entry order1 root entry st = walk_root_entry order2 root entry st.
Proof.
  destruct entry as [name [c|entries]]; simpl; [done|].
  intros H. by rewrite (H entries eq_refl).
Qed.

(** C6 (amended).  The thumbnail of a category is the first match in the
    order in which the set of suffixes is iterated; a build is determined by
    the snapshot (with its listing order) and that order.  Two orders of
    iteration give the same build whenever no category has more than one
    thumbnail candidate. *)
Theorem build_up_to_iteration_order (order1 order2 : list string) (root : listing) :
  iteration_order order1 →
  iteration_order order2 →
  (∀ name entries, (name, Dir entries) ∈ root → single_thumbnail root (Path.stem name)) →
  build order1 root = build order2 root
  ∧ ∀ stem,
      match find_thumbnail root stem order1 with
      | Some thumb_path =>
          ∃ before ext after,
            order1 = before ++ ext :: after
            ∧ thumb_path = Path.join root_path (stem +:+ ext)
            ∧ path_exists root (stem +:+ ext) = true
            ∧ Forall (λ e, path_exists root (stem +:+ e) = false) before
      | None => Forall (λ e, path_exists root (stem +:+ e) = false) order1
      end.
Proof.
  intros H1 H2 Hsingle. split; [|intros stem; apply find_thumbnail_first].
  unfold build, _walk_root. apply for_each_ext.
  intros [name node] st Hin. apply walk_root_entry_order. simpl.
  intros entries ->. apply find_thumbnail_perm; [done..|].
  by apply (Hsingle name entries).
Qed.

Lemma png_first_iteration_order : iteration_order png_first.
Proof.
  unfold iteration_order, png_first, image_suffixes_literal.
  apply (Permutation_middle [".gif"; ".jpeg"; ".jpg"] [".mp4"; ".webm"] ".png").
Qed.

Lemma build_up_to_iteration_order_witness :
  build image_suffixes_literal sample_root = build png_first sample_root
  ∧ ∀ stem,
      match find_thumbnail sample_root stem image_suffixes_literal with
      | Some thumb_path =>
          ∃ before ext after,
            image_suffixes_literal = before ++ ext :: after
            ∧ thumb_path = Path.join root_path (stem +:+ ext)
            ∧ path_exists sample_root (stem +:+ ext) = true
            ∧ Forall (λ e, path_exists sample_root (stem +:+ e) = false) before
      | None =>
          Forall (λ e, path_exists sample_root (stem +:+ e) = false) image_suffixes_literal
      end.
Proof.
  apply (build_up_to_iteration_order image_suffixes_literal png_first sample_root).
  - unfold iteration_order. reflexivity.
  - apply (Permutation_middle [".gif"; ".jpeg"; ".jpg"] [".mp4"; ".webm"] ".png").
  - intros name entries Hin. cases_of_elem Hin; [|discriminate Hin].
    injection Hin as -> _. intros ext1 ext2 H1 H2.
    cases_of_elem H1; cases_of_elem H2; subst ext1 ext2; vm_compute; congruence.
Defined.

(** C6, as stated, fails: with two thumbnail candidates for a category the
    thumbnail chosen, and with it the category command, depends on the order
    in which the set of suffixes is iterated, which the code does not fix. *)
Lemma thumbnail_depends_on_iteration_order :
  iteration_order image_suffixes_literal
  ∧ iteration_order png_first
  ∧ find_thumbnail two_thumbnails_root "good_boy" image_suffixes_literal
      = Some "stickers/good_boy.gif"
  ∧ find_thumbnail two_thumbnails_root "good_boy" png_first
      = Some "stickers/good_boy.png"
  ∧ bot (build image_suffixes_literal two_thumbnails_root).2
      ≠ bot (build png_first two_thumbnails_root).2.
Proof.
  split; [by unfold iteration_order|]. split; [apply png_first_iteration_order|].
  split; [reflexivity|]. split; [reflexivity|].
  vm_compute. discriminate.
Qed.

(** ** Descriptors that do not parse *)

Lemma merge_cases {C} (update : C → Document → C) (defaults : C) (c : Content) :
  (c = Unreadable → merge update defaults c = Returned defaults)
  ∧ (merge update defaults c = Raised JSONDecodeError ↔ c = Malformed)
  ∧ (∀ e, merge update defaults c = Raised e → e = JSONDecodeError)
  ∧ (∀ d, c = Loaded d → merge update defaults c = Returned (update defaults d)).
Proof.
  split; [by intros ->|]. split; [by destruct c|].
  split; [destruct c; simpl; congruence|by intros d ->].
Qed.

Lemma resolve_category_raised order root name e :
  resolve_category order root name = Raised e ↔
  e = JSONDecodeError ∧ load_json root (Path.with_suffix name ".json") = Malformed.
Proof.
  unfold resolve_category.
  destruct (load_json root (Path.with_suffix name ".json")); simpl; naive_solver.
Qed.

Lemma observe_raised category_path dir name cfg e :
  observe category_path dir name cfg = Raised e ↔
  e = JSONDecodeError
  ∧ (Path.suffix name ∉ IMAGE_SUFFIXES)
  ∧ load_json dir (Path.with_suffix name ".json") = Malformed.
Proof.
  unfold observe. case_bool_decide; [naive_solver|].
  destruct (load_json dir (Path.with_suffix name ".json")); simpl; naive_solver.
Qed.

(** The first loop raises exactly when it meets a descriptor that does not
    parse, and then it raises [JSONDecodeError]. *)
Lemma collect_raised category_path dir prefix entries d e :
  collect category_path dir prefix entries d = Raised e ↔
  e = JSONDecodeError ∧ ∃ entry, entry ∈ entries ∧ malformed_descriptor dir entry.
Proof.
  unfold malformed_descriptor.
  revert d. induction entries as [|entry entries IH]; intros d; simpl.
  - split; [done|]. intros (_ & ? & ?%elem_of_nil & _). done.
  - setoid_rewrite elem_of_cons. destruct entry as [name node].
    destruct (eligible (name, node)) eqn:He.
    + rewrite (collect_entry_eligible _ _ _ _ _ _ He).
      destruct (observe _ _ _ _) as [c|e'] eqn:Hobs.
      * rewrite IH. split; [naive_solver|].
        intros (-> & entry & [->|Hin] & Hbad); [|naive_solver].
        simpl in Hbad. destruct Hbad as (_ & Hsuf & Hload).
        assert (observe category_path dir name
                  (default (sticker_defaults prefix (Path.stem name))
                     (dict_get (Path.stem name) d)) = Raised JSONDecodeError) as Hr.
        { by apply observe_raised. }
        congruence.
      * apply observe_raised in Hobs as (-> & Hsuf & Hload).
        split; [intros [= <-]|by intros [-> _]]. split; [done|].
        exists (name, node). naive_solver.
    + rewrite (collect_entry_skip _ _ _ _ _ _ He), IH.
      split; [naive_solver|].
      intros (-> & entry & [->|Hin] & Hbad); [|naive_solver].
      destruct Hbad as (Hbad & _). congruence.
Qed.

Lemma for_each_app {S A} (f : A → M S unit) (xs ys : list A) st :
  for_each f (xs ++ ys) st =
    match for_each f xs st with
    | (Returned _, st') => for_each f ys st'
    | (Raised e, st') => (Raised e, st')
    end.
Proof.
  revert st. induction xs as [|x xs IH]; intros st; simpl; [done|].
  unfold bind. destruct (f x st) as [[[]|e] st']; [apply IH|done].
Qed.

(** A category with a descriptor that does not parse, its own or one of
    its stickers', raises before any of its commands reaches the bot. *)
Lemma walk_root_entry_malformed order root name entries st :
  load_json root (Path.with_suffix name ".json") = Malformed
  ∨ (∃ entry, entry ∈ entries ∧ malformed_descriptor entries entry) →
  ∃ st', walk_root_entry order root (name, Dir entries) st = (Raised JSONDecodeError, st')
         ∧ bot st' = bot st.
Proof.
  intros Hbad. rewrite walk_root_entry_run.
  destruct (resolve_category order root name) as [cfg|e] eqn:Hcfg.
  - destruct Hbad as [Hbad|Hbad].
    { assert (resolve_category order root name = Raised JSONDecodeError) as Hr
        by by apply resolve_category_raised.
      congruence. }
    assert (collect (Path.join root_path name) entries (Category.prefix cfg) entries []
              = Raised JSONDecodeError) as -> by by apply collect_raised.
    by eexists.
  - apply resolve_category_raised in Hcfg as [-> _]. by eexists.
Qed.

(** C2 (amended).  The merge returns the defaults unchanged whenever the
    descriptor is absent or unreadable, and raises exactly when the file is
    read but does not parse.  A descriptor that does not parse aborts the
    construction where it is met: the category it belongs to and the
    categories after it register nothing, while the commands of the
    categories walked before it stay with the bot. *)
Theorem malformed_descriptor_aborts (order : list string)
    (root before after : listing) (name : string) (entries : listing) (st1 : Stickers) :
  root = before ++ (name, Dir entries) :: after →
  for_each (walk_root_entry order root) before init = (Returned (), st1) →
  (load_json root (Path.with_suffix name ".json") = Malformed
   ∨ ∃ entry, entry ∈ entries ∧ malformed_descriptor entries entry) →
  (∃ st2, build order root = (Raised JSONDecodeError, st2) ∧ bot st2 = bot st1)
  ∧ (∀ (C : Type) (update : C → Document → C) (defaults : C) (c : Content),
       (c = Unreadable → merge update defaults c = Returned defaults)
       ∧ (merge update defaults c = Raised JSONDecodeError ↔ c = Malformed)
       ∧ (∀ e, merge update defaults c = Raised e → e = JSONDecodeError)
       ∧ (∀ d, c = Loaded d → merge update defaults c = Returned (update defaults d))).
Proof.
  intros Hroot Hbefore Hbad. split; [|intros; apply merge_cases].
  destruct (walk_root_entry_malformed order root name entries st1 Hbad)
    as (st2 & Hrun & Hbot).
  unfold build, _walk_root. set (body := walk_root_entry order root) in *.
  rewrite Hroot, for_each_app, Hbefore. cbn [for_each].
  unfold bind. rewrite Hrun. by exists st2.
Qed.

Lemma malformed_descriptor_aborts_witness :
  (∃ st2, build image_suffixes_literal broken_root = (Raised JSONDecodeError, st2)
          ∧ bot st2 = [_sticker_command
                         (Sticker.set_file (sticker_defaults "" "x")
                            (Some "stickers/a_pack/x.png"));
                       {| callback := CategoryCallback
                                        ("A Pack stickers" +:+ String "010"%char "```X```")
                                        None;
                          cmd_hidden := true; cmd_name := "APack"; cmd_aliases := [];
                          cmd_help := "Info about APack sticker category" |}])
  ∧ (∀ (C : Type) (update : C → Document → C) (defaults : C) (c : Content),
       (c = Unreadable → merge update defaults c = Returned defaults)
       ∧ (merge update defaults c = Raised JSONDecodeError ↔ c = Malformed)
       ∧ (∀ e, merge update defaults c = Raised e → e = JSONDecodeError)
       ∧ (∀ d, c = Loaded d → merge update defaults c = Returned (update defaults d))).
Proof.
  apply (malformed_descriptor_aborts image_suffixes_literal broken_root
           [("a_pack", Dir [("x.png", media)])]
           [("b_pack.json", File Malformed)]
           "b_pack" [("y.png", media)]
           (for_each (walk_root_entry image_suffixes_literal broken_root)
              [("a_pack", Dir [("x.png", media)])] init).2).
  - reflexivity.
  - reflexivity.
  - left. reflexivity.
Defined.

(** C2, as stated, fails twice: a descriptor that is read and sets no key
    also leaves the defaults unchanged, and when a descriptor does not parse
    the commands registered before it are still with the bot. *)
Lemma malformed_descriptor_keeps_earlier_commands :
  merge Category.update (category_defaults "b_pack") (Loaded empty_document)
    = Returned (category_defaults "b_pack")
  ∧ load_json broken_root (Path.with_suffix "b_pack" ".json") = Malformed
  ∧ (build image_suffixes_literal broken_root).1 = Raised JSONDecodeError
  ∧ cmd_name <$> bot (build image_suffixes_literal broken_root).2 = ["X"; "APack"].
Proof. repeat split; reflexivity. Qed.

(** ** Names, stems and suffixes *)

Lemma substring_all (s : string) : String.substring 0 (String.length s) s = s.
Proof. induction s as [|c s IH]; simpl; [done|by rewrite IH]. Qed.

Lemma substring_split (s : string) (i : nat) :
  i ≤ String.length s →
  String.substring 0 i s +:+ String.substring i (String.length s - i) s = s.
Proof.
  revert i. induction s as [|c s IH]; intros [|i] Hi; simpl in *; try lia.
  - done.
  - by rewrite append_empty_l, substring_all.
  - rewrite append_cons, IH by lia. done.
Qed.

Lemma length_substring (s : string) (i m : nat) :
  i + m ≤ String.length s → String.length (String.substring i m s) = m.
Proof.
  revert i m. induction s as [|c s IH]; intros [|i] [|m] Hi; simpl in *; try lia.
  - rewrite (IH 0 m); lia.
  - apply (IH i 0). lia.
  - apply (IH i (S m)). lia.
Qed.

Lemma suffix_index_bound (name : string) (i : nat) :
  Path.suffix_index name = Some i → i < String.length name - 1.
Proof.
  unfold Path.suffix_index. destruct (Path.rfind_dot name) as [j|]; [|done].
  destruct (0 <? j) eqn:H0; simpl; [|done].
  destruct (j <? String.length name - 1) eqn:H1; [|done].
  intros [= <-]. by apply Nat.ltb_lt.
Qed.

(** A name is its stem followed by its suffix. *)
Lemma stem_suffix (name : string) : Path.stem name +:+ Path.suffix name = name.
Proof.
  unfold Path.stem, Path.suffix.
  destruct (Path.suffix_index name) as [i|] eqn:Hi.
  - apply substring_split. apply suffix_index_bound in Hi. lia.
  - induction name as [|c name IH]; [done|].
    rewrite append_cons. f_equal. clear. induction name; [done|].
    rewrite append_cons. by f_equal.
Qed.

Lemma with_suffix_stem (name suf : string) :
  Path.with_suffix name suf = Path.stem name +:+ suf.
Proof.
  unfold Path.with_suffix, Path.stem, Path.suffix.
  destruct (Path.suffix_index name) as [i|] eqn:Hi; [|done].
  apply suffix_index_bound in Hi.
  pose proof (length_substring name i (String.length name - i)) as Hlen.
  destruct (String.substring i (String.length name - i) name) as [|c old].
  - simpl in Hlen. lia.
  - rewrite Hlen by lia. do 2 f_equal. lia.
Qed.

(** Replacing the suffix by itself gives the name back. *)
Lemma with_suffix_same (name : string) :
  Path.with_suffix name (Path.suffix name) = name.
Proof. by rewrite with_suffix_stem, stem_suffix. Qed.

Lemma lookup_name_NoDup (dir : listing) (name : string) (node : Node) :
  NoDup dir.*1 → (name, node) ∈ dir → lookup_name name dir = Some node.
Proof.
  induction dir as [|[n x] dir IH]; simpl.
  - by intros _ ?%elem_of_nil.
  - rewrite NoDup_cons. intros [Hn Hdir] [[= -> ->]|Hin]%elem_of_cons.
    + by case_decide.
    + case_decide as Heq; [|by apply IH].
      subst n. destruct Hn. apply list_elem_of_fmap. by exists (name, node).
Qed.

Lemma dict_filter_absent (d : list (string * Sticker.config)) (k : string) :
  k ∉ d.*1 → filter (λ kv, kv.1 = k) d = [].
Proof.
  induction d as [|[k' v'] d IH]; [done|].
  rewrite fmap_cons, not_elem_of_cons. simpl. intros [Hne Hn].
  rewrite filter_cons_False by (simpl; congruence). by apply IH.
Qed.

Lemma dict_filter_key (d : list (string * Sticker.config)) (k : string)
    (v : Sticker.config) :
  NoDup d.*1 → dict_get k d = Some v → filter (λ kv, kv.1 = k) d = [(k, v)].
Proof.
  induction d as [|[k' v'] d IH]; [done|].
  rewrite fmap_cons, NoDup_cons. intros [Hn Hd] Hget.
  simpl in *. case_decide as Heq.
  - injection Hget as ->. subst k'. rewrite filter_cons_True by done. f_equal.
    by apply dict_filter_absent.
  - rewrite filter_cons_False by done. by apply IH.
Qed.

(** ** A descriptor without a media file *)

Lemma json_not_image : ".json" ∉ IMAGE_SUFFIXES.
Proof. apply (bool_decide_eq_false_1 (".json" ∈ IMAGE_SUFFIXES)). reflexivity. Qed.

Lemma json_eligible (name : string) (c : Content) :
  Path.suffix name = ".json" → eligible (name, File c) = true.
Proof. unfold eligible. simpl. intros ->. reflexivity. Qed.

(** What a descriptor entry does to the record of its stem. *)
Lemma observe_descriptor category_path (dir : listing) (name : string) (c : Content) cfg :
  NoDup dir.*1 → (name, File c) ∈ dir →
  Path.suffix name = ".json" →
  observe category_path dir name cfg = merge Sticker.update cfg c.
Proof.
  intros Hnodup Hin Hsuf. unfold observe. rewrite Hsuf.
  rewrite (bool_decide_eq_false_2 _ json_not_image).
  rewrite <-Hsuf, with_suffix_same. unfold load_json.
  by rewrite (lookup_name_NoDup dir name (File c) Hnodup Hin).
Qed.

(** C10.  In a category directory, a descriptor file whose stem has no
    media file still gives that stem one sticker record, and so one sticker
    command, whenever the walk of the directory returns: the record is the
    defaults overlaid with the descriptor, and its [file] is [None] unless
    the descriptor supplies one. *)
Theorem descriptor_alone_registers (category_path : string)
    (dir before after : listing) (prefix name : string) (c : Content)
    (d : list (string * Sticker.config)) (st : Stickers) :
  dir = before ++ (name, File c) :: after →
  NoDup dir.*1 →
  Path.suffix name = ".json" →
  (∀ entry, entry ∈ dir → is_file entry.2 = true →
     Path.suffix entry.1 ∈ IMAGE_SUFFIXES → Path.stem entry.1 ≠ Path.stem name) →
  collect category_path dir prefix dir [] = Returned d →
  ∃ cfg,
    filter (λ kv, kv.1 = Path.stem name) d = [(Path.stem name, cfg)]
    ∧ cfg = match c with
            | Loaded doc => Sticker.update (sticker_defaults prefix (Path.stem name)) doc
            | _ => sticker_defaults prefix (Path.stem name)
            end
    ∧ Sticker.file cfg = match c with
                         | Loaded doc => default None (doc_file doc)
                         | _ => None
                         end
    ∧ _walk_category category_path dir prefix st =
        (Returned (Sticker.name <$> dict_values d),
         {| category_sticker_names := category_sticker_names st;
            category_names := category_names st;
            bot := bot st ++ (_sticker_command <$> dict_values d) |})
    ∧ callback (_sticker_command cfg) = StickerCallback (Sticker.file cfg) (Sticker.message cfg).
Proof.
  intros Hdir Hnodup Hsuf Hmedia Hcollect.
  assert ((name, File c) ∈ dir) as Hin by (rewrite Hdir; set_solver).
  assert (Forall (λ entry, ¬ (eligible entry = true ∧ Path.stem entry.1 = Path.stem name))
            (before ++ after)) as Hother.
  { apply Forall_forall. intros [n x] Hnx [Hel Hst]. simpl in Hst.
    unfold eligible in Hel. simpl in Hel.
    apply andb_true_iff in Hel as [Hfile Hs]. apply bool_decide_eq_true in Hs.
    apply elem_of_union in Hs as [Hs|Hs].
    - apply (Hmedia (n, x)); [rewrite Hdir; set_solver|done..].
    - apply elem_of_singleton in Hs.
      assert (n = name) as ->.
      { rewrite <-(stem_suffix n), <-(stem_suffix name). congruence. }
      rewrite Hdir, fmap_app, fmap_cons in Hnodup. simpl in Hnodup.
      apply NoDup_app in Hnodup as (_ & Hb & [Ha _]%NoDup_cons).
      apply elem_of_app in Hnx as [Hnx|Hnx].
      + apply (Hb name); [|set_solver].
        apply list_elem_of_fmap. by exists (name, x).
      + apply Ha. apply list_elem_of_fmap. by exists (name, x). }
  apply Forall_app in Hother as [Hbefore Hafter].
  assert (collect category_path dir prefix (before ++ (name, File c) :: after) []
            = Returned d) as Hc by (by rewrite <-Hdir).
  rewrite collect_app in Hc.
  destruct (collect category_path dir prefix before []) as [d1|] eqn:H1; [|done].
  cbn [collect] in Hc.
  rewrite (collect_entry_eligible _ _ _ _ _ _ (json_eligible name c Hsuf)) in Hc.
  rewrite (collect_other _ _ _ _ _ _ _ H1 Hbefore) in Hc. simpl in Hc.
  rewrite (observe_descriptor _ dir name c _ Hnodup Hin Hsuf) in Hc.
  destruct (merge Sticker.update (sticker_defaults prefix (Path.stem name)) c)
    as [cfg|] eqn:Hmerge; [|done].
  exists cfg.
  assert (dict_get (Path.stem name) d = Some cfg) as Hget.
  { rewrite (collect_other _ _ _ _ _ _ _ Hc Hafter). apply dict_get_set_eq. }
  split.
  { apply dict_filter_key; [|done]. apply (collect_NoDup _ _ _ _ _ _ Hcollect), NoDup_nil_2. }
  split; [destruct c; simpl in Hmerge; congruence|].
  split; [destruct c as [| |doc]; simpl in Hmerge; [by injection Hmerge as <-|done|];
          injection Hmerge as <-; simpl; by destruct (doc_file doc)|].
  split; [by rewrite walk_category_run, Hcollect|done].
Qed.

Lemma descriptor_alone_registers_witness :
  ∃ cfg,
    filter (λ kv, kv.1 = "bark") descriptor_only_dict = [("bark", cfg)]
    ∧ cfg = Sticker.update (sticker_defaults "" "bark") (document (Some ["arf"]) None)
    ∧ Sticker.file cfg = None
    ∧ _walk_category "stickers/good_boy" descriptor_only_dir "" init =
        (Returned ["Woof"; "Bark"],
         {| category_sticker_names := ∅;
            category_names := [];
            bot := [] ++ (_sticker_command <$> dict_values descriptor_only_dict) |})
    ∧ callback (_sticker_command cfg) = StickerCallback (Sticker.file cfg) (Sticker.message cfg).
Proof.
  apply (descriptor_alone_registers "stickers/good_boy" descriptor_only_dir
           [("woof.png", media)] [] "" "bark.json"
           (Loaded (document (Some ["arf"]) None)) descriptor_only_dict init).
  - reflexivity.
  - apply (bool_decide_unpack _). reflexivity.
  - reflexivity.
  - intros entry Hin _ Hsuf. cases_of_elem Hin; subst entry.
    + vm_compute. discriminate.
    + by apply json_not_image in Hsuf.
  - reflexivity.
Defined.

(** ** A media file and a descriptor of one stem *)

(** A descriptor without a [file] key and a media file may be observed in
    either order: the record is the same. *)
Lemma update_set_file_commute (cfg : Sticker.config) (doc : Document) (path : option string) :
  doc_file doc = None →
  Sticker.update (Sticker.set_file cfg path) doc
    = Sticker.set_file (Sticker.update cfg doc) path.
Proof. intros H. unfold Sticker.update, Sticker.set_file. simpl. by rewrite H. Qed.

(** With a [file] key the last observation decides the [file] of the
    record. *)
Lemma update_set_file_order (cfg : Sticker.config) (doc : Document)
    (path value : option string) :
  doc_file doc = Some value →
  Sticker.file (Sticker.update (Sticker.set_file cfg path) doc) = value
  ∧ Sticker.file (Sticker.set_file (Sticker.update cfg doc) path) = path.
Proof. intros H. unfold Sticker.update, Sticker.set_file. simpl. by rewrite H. Qed.

(** C1 at [woof.png] and [woof.json] holding [{"file": "other.png"}]: the two
    files give one record in either order, but its [file] is the
    descriptor's value when the media file is listed first and the media
    path when the descriptor is listed first. *)
Lemma file_key_makes_order_matter :
  media_first ≡ₚ descriptor_first
  ∧ collect "stickers/good_boy" media_first "" media_first []
      = Returned [("woof", {| Sticker.hidden := true; Sticker.name := "Woof";
                              Sticker.aliases := []; Sticker.message := "";
                              Sticker.file := Some "other.png" |})]
  ∧ collect "stickers/good_boy" descriptor_first "" descriptor_first []
      = Returned [("woof", {| Sticker.hidden := true; Sticker.name := "Woof";
                              Sticker.aliases := []; Sticker.message := "";
                              Sticker.file := Some "stickers/good_boy/woof.png" |})]
  ∧ _walk_category "stickers/good_boy" media_first "" init
      ≠ _walk_category "stickers/good_boy" descriptor_first "" init.
Proof.
  split; [apply Permutation_swap|]. split; [reflexivity|]. split; [reflexivity|].
  vm_compute. discriminate.
Qed.

(** The two files of one stem, in general: when the descriptor has no
    [file] key (or cannot be read), both listing orders give the same
    dictionary. *)
Lemma observation_order_without_file_key (category_path prefix : string)
    (media_name json_name : string) (m c : Content) :
  Path.stem media_name = Path.stem json_name →
  Path.suffix media_name ∈ IMAGE_SUFFIXES →
  Path.suffix json_name = ".json" →
  (∀ doc, c = Loaded doc → doc_file doc = None) →
  collect category_path [(media_name, File m); (json_name, File c)] prefix
    [(media_name, File m); (json_name, File c)] []
  = collect category_path [(json_name, File c); (media_name, File m)] prefix
      [(json_name, File c); (media_name, File m)] [].
Proof.
  intros Hstem Hmedia Hjson Hfile.
  assert (media_name ≠ json_name) as Hne.
  { intros ->. rewrite Hjson in Hmedia. by apply json_not_image in Hmedia. }
  assert (eligible (media_name, File m) = true) as Hem.
  { unfold eligible. simpl. apply bool_decide_eq_true. by apply elem_of_union_l. }
  pose proof (json_eligible json_name c Hjson) as Hej.
  cbn [collect]. rewrite !(collect_entry_eligible _ _ _ _ _ _ Hem).
  rewrite !(collect_entry_eligible _ _ _ _ _ _ Hej). cbn [dict_get default].
  assert (∀ cfg, observe category_path [(media_name, File m); (json_name, File c)]
                   json_name cfg = merge Sticker.update cfg c) as Hobs1.
  { intros cfg. apply observe_descriptor; [|set_solver|done].
    apply (NoDup_cons_2 _ _), NoDup_singleton. set_solver. }
  assert (∀ cfg, observe category_path [(json_name, File c); (media_name, File m)]
                   json_name cfg = merge Sticker.update cfg c) as Hobs2.
  { intros cfg. apply observe_descriptor; [|set_solver|done].
    apply (NoDup_cons_2 _ _), NoDup_singleton. set_solver. }
  assert (∀ dir cfg, observe category_path dir media_name cfg
            = Returned (Sticker.set_file cfg (Some (Path.join category_path media_name))))
    as Hobsm.
  { intros dir cfg. unfold observe. by rewrite bool_decide_eq_true_2. }
  rewrite !Hobsm, Hobs2. rewrite <-Hstem.
  rewrite !(collect_entry_eligible _ _ _ _ _ _ Hej).
  rewrite <-Hstem, dict_get_set_eq. cbn [default]. rewrite Hobs1.
  destruct c as [| |doc]; cbn [merge]; [| |].
  - rewrite !(collect_entry_eligible _ _ _ _ _ _ Hem), dict_get_set_eq, Hobsm.
    cbn [default]. by rewrite !dict_set_set.
  - done.
  - rewrite !(collect_entry_eligible _ _ _ _ _ _ Hem), dict_get_set_eq, Hobsm.
    cbn [default]. rewrite !dict_set_set. unfold id.
    by rewrite (update_set_file_commute _ doc _ (Hfile doc eq_refl)).
Qed.

(** ** A collision in the command table *)

(** The directory [woof/] with [woof.png]: the sticker and the category are
    both named [Woof]; the category command, registered last, holds the key. *)
Example category_replaces_sticker :
  registry_of (bot (build image_suffixes_literal collision_root).2) !! "Woof"
    = Some {| callback := CategoryCallback
                            ("Woof stickers" +:+ String "010"%char "```Woof```") None;
              cmd_hidden := true; cmd_name := "Woof"; cmd_aliases := [];
              cmd_help := "Info about Woof sticker category" |}
  ∧ cmd_name <$> bot (build image_suffixes_literal collision_root).2 = ["Woof"; "Woof"].
Proof. split; reflexivity. Qed.

(** * Further properties of the code *)

(** ** [snake_to_camel] and [snake_to_title] *)

Lemma length_append (s t : string) :
  String.length (s +:+ t) = String.length s + String.length t.
Proof. induction s as [|c s IH]; [done|]. rewrite append_cons. simpl. by rewrite IH. Qed.

Lemma length_map_chars (f : ascii → ascii) (s : string) :
  String.length (PyStr.map_chars f s) = String.length s.
Proof. induction s as [|c s IH]; simpl; [done|by rewrite IH]. Qed.

Lemma length_capitalize (w : string) :
  String.length (PyStr.capitalize w) = String.length w.
Proof. destruct w as [|c w]; simpl; [done|by rewrite length_map_chars]. Qed.

Lemma split_nonempty (sep : ascii) (s : string) : PyStr.split sep s ≠ [].
Proof.
  induction s as [|c s IH]; simpl; [done|].
  destruct (Ascii.eqb c sep); [done|]. by destruct (PyStr.split sep s).
Qed.

(** The pieces of a split and the separators between them make up the
    string. *)
Lemma split_lengths (sep : ascii) (s : string) :
  sum_list (String.length <$> PyStr.split sep s) + (length (PyStr.split sep s) - 1)
    = String.length s.
Proof.
  induction s as [|c s IH]; simpl; [done|].
  pose proof (split_nonempty sep s) as Hne.
  destruct (Ascii.eqb c sep); simpl.
  - destruct (PyStr.split sep s) as [|w ws]; [done|]. simpl in *. lia.
  - destruct (PyStr.split sep s) as [|w ws]; [done|]. simpl in *. lia.
Qed.

Lemma split_count (s : string) :
  length (PyStr.split "_" s) = S (count_underscores s).
Proof.
  induction s as [|c s IH]; simpl; [done|].
  destruct (Ascii.eqb c "_"); simpl; [by rewrite IH|].
  by destruct (PyStr.split "_" s).
Qed.

Lemma join_length (sep : string) (ws : list string) :
  String.length (PyStr.join sep ws)
    = sum_list (String.length <$> ws) + (length ws - 1) * String.length sep.
Proof.
  induction ws as [|w ws IH]; [done|].
  destruct ws as [|w' ws]; [simpl; lia|].
  change (PyStr.join sep (w :: w' :: ws)) with (w +:+ sep +:+ PyStr.join sep (w' :: ws)).
  rewrite !length_append, IH. simpl. lia.
Qed.

Lemma capitalize_lengths (ws : list string) :
  sum_list (String.length <$> (PyStr.capitalize <$> ws)) = sum_list (String.length <$> ws).
Proof.
  induction ws as [|w ws IH]; [done|].
  rewrite !fmap_cons. cbn [sum_list sum_list_with]. by rewrite length_capitalize, IH.
Qed.

(** X1.  On an ASCII name [snake_to_title] keeps the length: every
    underscore becomes one space and every other character one character. *)
Theorem snake_to_title_length (name : string) :
  ascii_only name = true →
  String.length (snake_to_title name) = String.length name.
Proof.
  intros _. unfold snake_to_title.
  rewrite join_length, capitalize_lengths, length_fmap. simpl.
  rewrite Nat.mul_1_r. apply split_lengths.
Qed.

Lemma snake_to_title_length_witness :
  String.length (snake_to_title "good_boy_pack") = String.length "good_boy_pack".
Proof. apply (snake_to_title_length "good_boy_pack"). reflexivity. Defined.

Lemma upper_not_underscore (c : ascii) :
  Ascii.eqb c "_" = false → Ascii.eqb (PyStr.upper c) "_" = false.
Proof.
  destruct c as [[] [] [] [] [] [] [] []]; vm_compute; congruence.
Qed.

Lemma lower_not_underscore (c : ascii) :
  Ascii.eqb c "_" = false → Ascii.eqb (PyStr.lower c) "_" = false.
Proof.
  destruct c as [[] [] [] [] [] [] [] []]; vm_compute; congruence.
Qed.

Lemma capitalize_underscore_free (w : string) :
  underscore_free w = true → underscore_free (PyStr.capitalize w) = true.
Proof.
  destruct w as [|c w]; simpl; [done|].
  rewrite !andb_true_iff, !negb_true_iff. intros [Hc Hw].
  split; [by apply upper_not_underscore|].
  induction w as [|c' w IH]; simpl in *; [done|].
  apply andb_true_iff in Hw as [Hc' Hw]. apply negb_true_iff in Hc'.
  rewrite (lower_not_underscore _ Hc'). simpl. by apply IH.
Qed.

Lemma append_underscore_free (s t : string) :
  underscore_free s = true → underscore_free t = true → underscore_free (s +:+ t) = true.
Proof.
  intros Hs Ht. induction s as [|c s IH]; [done|].
  rewrite append_cons. simpl in *. apply andb_true_iff in Hs as [-> Hs]. by apply IH.
Qed.

Lemma split_underscore_free (s : string) :
  Forall (λ w, underscore_free w = true) (PyStr.split "_" s).
Proof.
  induction s as [|c s IH]; simpl; [by repeat constructor|].
  destruct (Ascii.eqb c "_") eqn:Hc; [by constructor|].
  destruct (PyStr.split "_" s) as [|w ws]; [by repeat constructor; simpl; rewrite Hc|].
  apply Forall_cons in IH as [Hw Hws]. constructor; [|done].
  simpl. by rewrite Hc, Hw.
Qed.

Lemma join_empty_underscore_free (ws : list string) :
  Forall (λ w, underscore_free w = true) ws → underscore_free (PyStr.join "" ws) = true.
Proof.
  induction ws as [|w ws IH]; [done|]. intros [Hw Hws]%Forall_cons.
  destruct ws as [|w' ws]; [done|].
  change (PyStr.join "" (w :: w' :: ws)) with (w +:+ "" +:+ PyStr.join "" (w' :: ws)).
  apply append_underscore_free; [done|]. rewrite append_empty_l. by apply IH.
Qed.

(** X2.  The result of [snake_to_camel] on an ASCII name holds no
    underscore, and it is shorter than the name by the number of underscores
    of the name. *)
Theorem snake_to_camel_no_underscore (name : string) :
  ascii_only name = true →
  underscore_free (snake_to_camel name) = true
  ∧ String.length (snake_to_camel name) + count_underscores name = String.length name.
Proof.
  intros _. unfold snake_to_camel. split.
  - apply join_empty_underscore_free, Forall_fmap.
    eapply Forall_impl; [apply split_underscore_free|].
    intros w Hw. by apply capitalize_underscore_free.
  - rewrite join_length, capitalize_lengths. simpl. rewrite Nat.mul_0_r, Nat.add_0_r.
    pose proof (split_lengths "_" name) as H. rewrite split_count in H. simpl in H. lia.
Qed.

Lemma snake_to_camel_no_underscore_witness :
  underscore_free (snake_to_camel "_good__boy_") = true
  ∧ String.length (snake_to_camel "_good__boy_") + count_underscores "_good__boy_"
    = String.length "_good__boy_".
Proof. apply (snake_to_camel_no_underscore "_good__boy_"). reflexivity. Defined.

Lemma split_underscore_free_whole (s : string) :
  underscore_free s = true → PyStr.split "_" s = [s].
Proof.
  induction s as [|c s IH]; simpl; [done|].
  rewrite andb_true_iff, negb_true_iff. intros [-> Hs]. by rewrite (IH Hs).
Qed.

(** X3.  On a name without underscores both conversions are
    [str.capitalize]: the first character upper-cased, the others
    lower-cased. *)
Theorem snake_without_underscore (name : string) :
  underscore_free name = true →
  snake_to_camel name = PyStr.capitalize name
  ∧ snake_to_title name = PyStr.capitalize name.
Proof.
  intros H. unfold snake_to_camel, snake_to_title.
  by rewrite (split_underscore_free_whole _ H).
Qed.

Lemma snake_without_underscore_witness :
  snake_to_camel "fooBar" = "Foobar" ∧ snake_to_title "fooBar" = "Foobar".
Proof. apply (snake_without_underscore "fooBar"). reflexivity. Defined.

(** ** What the first loop of [_walk_category] takes up *)

(** X4.  The first loop passes over every entry that is not a file with a
    media or [.json] suffix: subdirectories and files with other suffixes
    change nothing, whatever else the directory holds. *)
Theorem collect_skips_ineligible (category_path : string) (dir : listing)
    (prefix : string) (entries : list (string * Node)) (d : sticker_dict) :
  collect category_path dir prefix entries d
    = collect category_path dir prefix (filter (λ entry, eligible entry = true) entries) d.
Proof.
  revert d. induction entries as [|[name node] entries IH]; intros d; [done|].
  destruct (eligible (name, node)) eqn:He.
  - rewrite filter_cons_True by done. cbn [collect].
    destruct (collect_entry _ _ _ _ _); [apply IH|done].
  - rewrite filter_cons_False by (by rewrite He). cbn [collect].
    rewrite (collect_entry_skip _ _ _ _ _ _ He). apply IH.
Qed.

Lemma collect_no_eligible category_path dir prefix (entries : list (string * Node)) d :
  Forall (λ entry, eligible entry = false) entries →
  collect category_path dir prefix entries d = Returned d.
Proof.
  revert d. induction entries as [|[name node] entries IH]; intros d; [done|].
  intros [He Hrest]%Forall_cons. cbn [collect].
  rewrite (collect_entry_skip _ _ _ _ _ _ He). by apply IH.
Qed.

(** X5.  A category directory without any media or [.json] file yields no
    sticker: the walk returns the empty list of names and hands nothing to
    the bot. *)
Theorem walk_category_without_stickers (category_path : string) (dir : listing)
    (prefix : string) (st : Stickers) :
  Forall (λ entry, eligible entry = false) dir →
  _walk_category category_path dir prefix st = (Returned [], st).
Proof.
  intros H. rewrite walk_category_run, (collect_no_eligible _ _ _ _ _ H). simpl.
  rewrite app_nil_r. by destruct st.
Qed.

Lemma walk_category_without_stickers_witness :
  _walk_category "stickers/empty" [("notes.txt", media); ("extra", Dir [("deep.png", media)])]
    "" init = (Returned [], init).
Proof.
  apply (walk_category_without_stickers "stickers/empty"
           [("notes.txt", media); ("extra", Dir [("deep.png", media)])] "" init).
  repeat constructor.
Defined.

(** X6.  When several media files share a stem, the one listed last gives
    the record its [file] (as long as no descriptor of the stem comes after
    it). *)
Theorem last_media_file_decides (category_path : string) (dir : listing)
    (prefix : string) (before after : list (string * Node)) (name : string)
    (m : Content) (d : sticker_dict) :
  Path.suffix name ∈ IMAGE_SUFFIXES →
  Forall (λ entry, ¬ (eligible entry = true ∧ Path.stem entry.1 = Path.stem name)) after →
  collect category_path dir prefix (before ++ (name, File m) :: after) [] = Returned d →
  ∃ cfg,
    dict_get (Path.stem name) d = Some cfg
    ∧ Sticker.file cfg = Some (Path.join category_path name).
Proof.
  intros Hsuf Hafter Hc. rewrite collect_app in Hc.
  destruct (collect category_path dir prefix before []) as [d1|]; [|done].
  cbn [collect] in Hc.
  assert (eligible (name, File m) = true) as He.
  { unfold eligible. simpl. apply bool_decide_eq_true. by apply elem_of_union_l. }
  rewrite (collect_entry_eligible _ _ _ _ _ _ He) in Hc.
  unfold observe in Hc. rewrite (bool_decide_eq_true_2 _ Hsuf) in Hc.
  eexists. split.
  - rewrite (collect_other _ _ _ _ _ _ _ Hc Hafter). apply dict_get_set_eq.
  - reflexivity.
Qed.

Lemma last_media_file_decides_witness :
  ∃ cfg,
    dict_get "woof" [ ("woof", Sticker.set_file (sticker_defaults "" "woof")
                                 (Some "stickers/good_boy/woof.png"));
                      ("sit", Sticker.set_file (sticker_defaults "" "sit")
                                (Some "stickers/good_boy/sit.png")) ] = Some cfg
    ∧ Sticker.file cfg = Some "stickers/good_boy/woof.png".
Proof.
  apply (last_media_file_decides "stickers/good_boy" mixed_dir ""
           [ ("woof.gif", media); ("notes.txt", media); ("sit.png", media);
             ("extra", Dir [ ("deep.png", media) ]) ] [] "woof.png" Malformed).
  - apply (bool_decide_eq_true_1 (Path.suffix "woof.png" ∈ IMAGE_SUFFIXES)). reflexivity.
  - constructor.
  - reflexivity.
Defined.

(** ** The names and the order of the stickers of a category *)

Lemma dict_set_elem (d : sticker_dict) (k k0 : string) (v v0 : Sticker.config) :
  (k, v) ∈ dict_set k0 v0 d → (k = k0 ∧ v = v0) ∨ (k, v) ∈ d.
Proof.
  induction d as [|[k' v'] d IH]; simpl.
  - intros [= -> ->]%list_elem_of_singleton. by left.
  - case_decide as Hk.
    + intros [[= -> ->]|Hin]%elem_of_cons; [by left|]. right. by apply elem_of_cons; right.
    + intros [[= -> ->]|Hin]%elem_of_cons; [right; by apply elem_of_cons; left|].
      destruct (IH Hin) as [?|?]; [by left|]. right. by apply elem_of_cons; right.
Qed.

Lemma dict_get_elem (d : sticker_dict) (k : string) (v : Sticker.config) :
  dict_get k d = Some v → (k, v) ∈ d.
Proof.
  induction d as [|[k' v'] d IH]; simpl; [done|].
  case_decide as Hk.
  - intros [= ->]. subst k'. by apply elem_of_cons; left.
  - intros H. apply elem_of_cons. right. by apply IH.
Qed.

(** X7.  The prefix of the category reaches every sticker name: when no
    descriptor of the directory sets [name], every record is named
    [prefix + snake_to_camel(stem)]. *)
Theorem default_names_carry_prefix (category_path : string) (dir : listing)
    (prefix : string) (d : sticker_dict) :
  (∀ name doc, load_json dir name = Loaded doc → doc_name doc = None) →
  collect category_path dir prefix dir [] = Returned d →
  ∀ stem cfg, (stem, cfg) ∈ d → Sticker.name cfg = prefix +:+ snake_to_camel stem.
Proof.
  intros Hdoc.
  assert (∀ entries d0 d1,
            (∀ k c, (k, c) ∈ d0 → Sticker.name c = prefix +:+ snake_to_camel k) →
            collect category_path dir prefix entries d0 = Returned d1 →
            ∀ k c, (k, c) ∈ d1 → Sticker.name c = prefix +:+ snake_to_camel k) as Hinv.
  { induction entries as [|[name node] entries IH]; intros d0 d1 H0 Hc.
    - by injection Hc as <-.
    - cbn [collect] in Hc.
      destruct (collect_entry category_path dir prefix (name, node) d0) as [d'|] eqn:He;
        [|done].
      apply (IH d' d1); [|done]. intros k c Hin.
      destruct (eligible (name, node)) eqn:Hel.
      + rewrite (collect_entry_eligible _ _ _ _ _ _ Hel) in He.
        destruct (observe _ _ _ _) as [c'|] eqn:Hobs; [|done]. injection He as <-.
        apply dict_set_elem in Hin as [[-> ->]|Hin]; [|by apply H0].
        assert (Sticker.name (default (sticker_defaults prefix (Path.stem name))
                                (dict_get (Path.stem name) d0))
                = prefix +:+ snake_to_camel (Path.stem name)) as Hname.
        { destruct (dict_get (Path.stem name) d0) as [c0|] eqn:Hget; [|done].
          simpl. by apply H0, dict_get_elem. }
        rewrite <-Hname. unfold observe in Hobs. case_bool_decide.
        * by injection Hobs as <-.
        * destruct (load_json dir (Path.with_suffix name ".json")) as [| |doc] eqn:Hl;
            simpl in Hobs; [by injection Hobs as <-|done|].
          injection Hobs as <-. simpl. by rewrite (Hdoc _ _ Hl).
      + rewrite (collect_entry_skip _ _ _ _ _ _ Hel) in He. injection He as <-.
        by apply H0. }
  intros Hc. apply (Hinv dir [] d); [|done]. by intros k c ?%elem_of_nil.
Qed.

Lemma default_names_carry_prefix_witness :
  Forall (λ kv, Sticker.name kv.2 = "Gb" +:+ snake_to_camel kv.1)
    [ ("woof", Sticker.update
                 (Sticker.set_file (sticker_defaults "Gb" "woof")
                    (Some "stickers/good_boy/woof.png"))
                 (document (Some ["bark"]) None));
      ("sit", Sticker.set_file (sticker_defaults "Gb" "sit")
                (Some "stickers/good_boy/sit.gif")) ].
Proof.
  apply Forall_forall. intros [stem cfg].
  apply (default_names_carry_prefix "stickers/good_boy" good_boy_dir "Gb").
  - intros name doc. unfold load_json, good_boy_dir. simpl.
    repeat (case_decide; [by intros [= <-]|]). done.
  - reflexivity.
Defined.

Lemma first_occurrences_snoc (seen keys : list string) (k : string) :
  first_occurrences seen (keys ++ [k])
    = if decide (k ∈ first_occurrences seen keys) then first_occurrences seen keys
      else first_occurrences seen keys ++ [k].
Proof. unfold first_occurrences. by rewrite foldl_app. Qed.

Lemma collect_entry_key_order category_path dir prefix entry (d d' : sticker_dict) :
  collect_entry category_path dir prefix entry d = Returned d' →
  d'.*1 = first_occurrences d.*1 (observed_stems [entry]).
Proof.
  destruct entry as [name node]. unfold observed_stems.
  destruct (eligible (name, node)) eqn:He.
  - rewrite (collect_entry_eligible _ _ _ _ _ _ He).
    destruct (observe _ _ _ _) as [c|]; [|done]. intros [= <-].
    rewrite filter_cons_True, filter_nil by done. simpl.
    unfold first_occurrences. simpl. case_decide as Hin.
    + by apply dict_set_present.
    + rewrite dict_set_fresh by done. by rewrite fmap_app.
  - rewrite (collect_entry_skip _ _ _ _ _ _ He). intros [= <-].
    by rewrite filter_cons_False, filter_nil by (by rewrite He).
Qed.

(** X8.  The records of a category stand in the order in which their stems
    are first met in the listing; this is the order of the names in the
    category's message. *)
Theorem sticker_order_is_first_occurrence (category_path : string) (dir : listing)
    (prefix : string) (d : sticker_dict) :
  collect category_path dir prefix dir [] = Returned d →
  d.*1 = first_occurrences [] (observed_stems dir).
Proof.
  assert (∀ (entries : list (string * Node)) (d0 d1 : sticker_dict),
            collect category_path dir prefix entries d0 = Returned d1 →
            d1.*1 = first_occurrences d0.*1 (observed_stems entries)) as H.
  { induction entries as [|entry entries IH]; intros d0 d1 Hc.
    - by injection Hc as <-.
    - cbn [collect] in Hc.
      destruct (collect_entry category_path dir prefix entry d0) as [d'|] eqn:He; [|done].
      rewrite (IH _ _ Hc), (collect_entry_key_order _ _ _ _ _ _ He).
      unfold observed_stems, first_occurrences.
      change (entry :: entries) with ([entry] ++ entries).
      by rewrite filter_app, !fmap_app, foldl_app. }
  intros Hc. exact (H dir [] d Hc).
Qed.

Lemma sticker_order_is_first_occurrence_witness :
  [ ("woof", Sticker.set_file (sticker_defaults "" "woof")
               (Some "stickers/good_boy/woof.png"));
    ("sit", Sticker.set_file (sticker_defaults "" "sit")
              (Some "stickers/good_boy/sit.png")) ].*1
  = first_occurrences [] (observed_stems mixed_dir).
Proof.
  apply (sticker_order_is_first_occurrence "stickers/good_boy" mixed_dir "").
  reflexivity.
Defined.

(** ** What a walk of the root leaves in the cog *)

Lemma category_command_built (config : Category.config) (cmd : Command) :
  _category_command config = Returned cmd →
  cmd_name cmd = Category.name config ∧ is_category_command cmd = true.
Proof.
  unfold _category_command. destruct (Category.sticker_names config); [|done].
  destruct (PyStr.format _ _); [|done]. by intros [= <-].
Qed.

Lemma category_command_names_app (cmds1 cmds2 : list Command) :
  category_command_names (cmds1 ++ cmds2)
    = category_command_names cmds1 ++ category_command_names cmds2.
Proof. unfold category_command_names. by rewrite filter_app, fmap_app. Qed.

Lemma category_command_names_stickers (configs : list Sticker.config) :
  category_command_names (_sticker_command <$> configs) = [].
Proof.
  unfold category_command_names. induction configs as [|c configs IH]; [done|].
  rewrite fmap_cons, filter_cons_False by done. apply IH.
Qed.

Lemma category_command_names_category (cmd : Command) :
  is_category_command cmd = true → category_command_names [cmd] = [cmd_name cmd].
Proof.
  intros H. unfold category_command_names. by rewrite filter_cons_True, filter_nil.
Qed.

Lemma attributes_agree_lag (st : Stickers) : attributes_agree st → attributes_lag st.
Proof. intros [H1 H2]. split; [by rewrite H1|by rewrite H2]. Qed.

(** One entry of the root keeps the agreement when it returns and leaves
    the weaker one when it raises. *)
Lemma walk_root_entry_attributes order root entry st :
  attributes_agree st →
  match walk_root_entry order root entry st with
  | (Returned _, st') => attributes_agree st'
  | (Raised _, st') => attributes_lag st'
  end.
Proof.
  intros [Hcmds Hdom]. destruct entry as [name [c|entries]]; [done|].
  rewrite walk_root_entry_run.
  destruct (resolve_category order root name) as [cfg|e].
  2:{ by apply attributes_agree_lag. }
  destruct (collect _ _ _ _ _) as [d|e].
  2:{ split; simpl.
      - rewrite Hcmds. by apply prefix_app_r.
      - rewrite Hdom, list_to_set_app_L. set_solver. }
  destruct (_category_command _) as [cmd|e] eqn:Hcmd.
  - apply category_command_built in Hcmd as [Hname Hcat]. simpl in Hname.
    split; simpl.
    + rewrite !category_command_names_app, category_command_names_stickers.
      rewrite (category_command_names_category _ Hcat), Hcmds, Hname. done.
    + rewrite dom_insert_L, Hdom, list_to_set_app_L. set_solver.
  - split; simpl.
    + rewrite category_command_names_app, category_command_names_stickers, app_nil_r.
      rewrite Hcmds. by apply prefix_app_r.
    + rewrite dom_insert_L, Hdom, list_to_set_app_L. set_solver.
Qed.

Lemma for_each_attributes order root (entries : list (string * Node)) st :
  attributes_agree st →
  match for_each (walk_root_entry order root) entries st with
  | (Returned _, st') => attributes_agree st'
  | (Raised _, st') => attributes_lag st'
  end.
Proof.
  revert st. induction entries as [|entry entries IH]; intros st Hst; [done|].
  cbn [for_each]. unfold bind.
  pose proof (walk_root_entry_attributes order root entry st Hst) as H.
  destruct (walk_root_entry order root entry st) as [[[]|e] st']; [by apply IH|done].
Qed.

Lemma init_attributes_agree : attributes_agree init.
Proof. split; [done|]. simpl. by rewrite dom_empty_L. Qed.

(** X9.  After a build that returns, [category_names] (what the [stickers]
    command lists) names the category commands handed to the bot, in the
    same order and with the same repetitions, and [category_sticker_names]
    has an entry for exactly the names listed. *)
Theorem build_attributes_agree (order : list string) (root : listing) (st : Stickers) :
  build order root = (Returned (), st) →
  category_command_names (bot st) = category_names st
  ∧ dom (category_sticker_names st) = list_to_set (category_names st).
Proof.
  intros H. pose proof (for_each_attributes order root root init init_attributes_agree) as Hinv.
  unfold build, _walk_root in H. by rewrite H in Hinv.
Qed.

Lemma build_attributes_agree_witness :
  category_command_names (bot (build image_suffixes_literal sample_root).2)
    = category_names (build image_suffixes_literal sample_root).2
  ∧ dom (category_sticker_names (build image_suffixes_literal sample_root).2)
    = list_to_set (category_names (build image_suffixes_literal sample_root).2).
Proof.
  apply (build_attributes_agree image_suffixes_literal sample_root
           (build image_suffixes_literal sample_root).2).
  reflexivity.
Defined.

(** X10.  Whatever the outcome of a build, every category command handed
    to the bot is listed in [category_names], in order, and every key of
    [category_sticker_names] is listed; a build that raised may list one
    name more than it has commands. *)
Theorem build_attributes_lag (order : list string) (root : listing) :
  category_command_names (bot (build order root).2)
    `prefix_of` category_names (build order root).2
  ∧ dom (category_sticker_names (build order root).2)
      ⊆ list_to_set (category_names (build order root).2).
Proof.
  pose proof (for_each_attributes order root root init init_attributes_agree) as Hinv.
  unfold build, _walk_root.
  destruct (for_each (walk_root_entry order root) root init) as [[[]|e] st]; simpl.
  - by apply attributes_agree_lag.
  - done.
Qed.

Lemma walk_root_entry_grows order root entry st :
  bot st `prefix_of` bot (walk_root_entry order root entry st).2
  ∧ category_names st `prefix_of` category_names (walk_root_entry order root entry st).2
  ∧ dom (category_sticker_names st)
      ⊆ dom (category_sticker_names (walk_root_entry order root entry st).2).
Proof.
  destruct entry as [name [c|entries]]; [done|].
  rewrite walk_root_entry_run.
  destruct (resolve_category order root name) as [cfg|e]; [|done].
  destruct (collect _ _ _ _ _) as [d|e].
  2:{ simpl. split; [done|]. split; [by apply prefix_app_r|done]. }
  destruct (_category_command _) as [cmd|e]; simpl.
  - split; [by apply prefix_app_r|]. split; [by apply prefix_app_r|].
    rewrite dom_insert_L. set_solver.
  - split; [by apply prefix_app_r|]. split; [by apply prefix_app_r|].
    rewrite dom_insert_L. set_solver.
Qed.

Lemma for_each_grows order root (entries : list (string * Node)) st :
  bot st `prefix_of` bot (for_each (walk_root_entry order root) entries st).2
  ∧ category_names st
      `prefix_of` category_names (for_each (walk_root_entry order root) entries st).2
  ∧ dom (category_sticker_names st)
      ⊆ dom (category_sticker_names (for_each (walk_root_entry order root) entries st).2).
Proof.
  revert st. induction entries as [|entry entries IH]; intros st; [done|].
  cbn [for_each]. unfold bind.
  pose proof (walk_root_entry_grows order root entry st) as (H1 & H2 & H3).
  destruct (walk_root_entry order root entry st) as [[[]|e] st']; simpl in *; [|done].
  destruct (IH st') as (I1 & I2 & I3).
  split; [by etrans|]. split; [by etrans|by etrans].
Qed.

(** X11.  A walk of the root only adds: whatever its outcome, the commands
    and the category names the cog held before are still there, in the
    same places, and no key of [category_sticker_names] is lost. *)
Theorem walk_root_only_adds (order : list string) (root : listing) (st : Stickers) :
  bot st `prefix_of` bot (_walk_root order root st).2
  ∧ category_names st `prefix_of` category_names (_walk_root order root st).2
  ∧ dom (category_sticker_names st)
      ⊆ dom (category_sticker_names (_walk_root order root st).2).
Proof. apply for_each_grows. Qed.

Lemma for_each_files order root (entries : list (string * Node)) st :
  Forall (λ entry, is_dir entry.2 = false) entries →
  for_each (walk_root_entry order root) entries st = (Returned (), st).
Proof.
  induction entries as [|[name node] entries IH]; [done|].
  intros [Hfile Hrest]%Forall_cons. cbn [for_each]. unfold bind.
  destruct node as [c|sub]; [|done]. simpl. by apply IH.
Qed.

(** X12.  Entries of the root that are not directories are passed over: a
    root without directories leaves the cog as it was and registers
    nothing, whatever files it holds. *)
Theorem walk_root_without_directories (order : list string) (root : listing)
    (st : Stickers) :
  Forall (λ entry, is_dir entry.2 = false) root →
  _walk_root order root st = (Returned (), st).
Proof. apply for_each_files. Qed.

Lemma walk_root_without_directories_witness :
  _walk_root image_suffixes_literal
    [("good_boy.png", media); ("good_boy.json", File Malformed)] init
  = (Returned (), init).
Proof.
  apply (walk_root_without_directories image_suffixes_literal
           [("good_boy.png", media); ("good_boy.json", File Malformed)] init).
  repeat constructor.
Defined.

Lemma format_unclosed_brace (pre arg : string) :
  PyStr.brace_free pre = true → PyStr.format (pre +:+ "{") arg = None.
Proof.
  unfold PyStr.format. generalize PyStr.NoField.
  induction pre as [|c pre IH]; intros mode Hpre; [done|].
  simpl in Hpre. rewrite !andb_true_iff, !negb_true_iff in Hpre.
  destruct Hpre as [[Ho Hc] Hpre].
  rewrite append_cons. simpl. by rewrite Ho, Hc, (IH mode Hpre).
Qed.

(** X13.  The category message is formatted when the catalog is built: a
    template that ends in an unclosed brace makes the walk of its category
    raise, after the sticker commands of the category were handed to the
    bot and its names stored, and before any category command is. *)
Theorem unclosed_brace_raises_at_build (order : list string) (root : listing)
    (name : string) (entries : listing) (st : Stickers)
    (cfg : Category.config) (d : sticker_dict) (pre : string) :
  resolve_category order root name = Returned cfg →
  Category.message cfg = pre +:+ "{" →
  PyStr.brace_free pre = true →
  collect (Path.join root_path name) entries (Category.prefix cfg) entries [] = Returned d →
  walk_root_entry order root (name, Dir entries) st =
    (Raised FormatError,
     {| category_sticker_names :=
          <[Category.name cfg := Sticker.name <$> dict_values d]> (category_sticker_names st);
        category_names := category_names st ++ [Category.name cfg];
        bot := bot st ++ (_sticker_command <$> dict_values d) |}).
Proof.
  intros Hcfg Hmsg Hpre Hd. rewrite walk_root_entry_run, Hcfg, Hd.
  unfold _category_command. simpl. by rewrite Hmsg, (format_unclosed_brace _ _ Hpre).
Qed.

Lemma unclosed_brace_raises_at_build_witness :
  walk_root_entry image_suffixes_literal unclosed_root ("good_boy", Dir good_boy_dir) init =
    (Raised FormatError,
     {| category_sticker_names := <["GoodBoy" := ["Woof"; "Sit"]]> ∅;
        category_names := [] ++ ["GoodBoy"];
        bot := [] ++ (_sticker_command <$> dict_values good_boy_dict) |}).
Proof.
  apply (unclosed_brace_raises_at_build image_suffixes_literal unclosed_root
           "good_boy" good_boy_dir init
           {| Category.hidden := true; Category.name := "GoodBoy"; Category.prefix := "";
              Category.message := "Pack {"; Category.file := None;
              Category.sticker_names := None |}
           good_boy_dict "Pack "); reflexivity.
Defined.

(** ** What the callbacks do and never do *)

(** X14.  [discord.File] opens the captured file before anything else: when
    it cannot be opened, the callback of a sticker or of a category raises
    at once; no notice is sent, the webhooks are not listed, the request
    message is not deleted. *)
Theorem unopenable_file_stops_invocation (cmd : Command) (path : string)
    (tr : Transport) (ctx : Context) :
  callback_file cmd = Some path →
  can_open tr path = false →
  invoke cmd tr ctx = (Raised OSError, [OpenFile path]).
Proof.
  unfold callback_file, invoke. intros Hfile Hopen.
  destruct (callback cmd) as [file message|formatted file]; subst file;
    unfold sticker_callback, category_callback, discord_File, bind, call; simpl;
    by rewrite Hopen.
Qed.

Lemma unopenable_file_stops_invocation_witness :
  invoke good_boy_command
    {| can_open := λ _, false; webhooks := None; from_url := λ _, UrlWebhook;
       ctx_send_ok := true; delete_ok := true; webhook_send_ok := true |} rex
  = (Raised OSError, [OpenFile "stickers/good_boy.png"]).
Proof.
  apply (unopenable_file_stops_invocation good_boy_command "stickers/good_boy.png"
           {| can_open := λ _, false; webhooks := None; from_url := λ _, UrlWebhook;
              ctx_send_ok := true; delete_ok := true; webhook_send_ok := true |} rex);
    reflexivity.
Defined.

(** The logs a run of the sticker callback can leave. *)
Lemma sticker_log_cases (file : option string) (message : string)
    (tr : Transport) (ctx : Context) :
  (∃ path, file = Some path ∧ sticker_log file message tr ctx = [OpenFile path])
  ∨ sticker_log file message tr ctx = opens file ++ [GuildWebhooks]
  ∨ (∃ content,
       sticker_log file message tr ctx
         = opens file ++ [GuildWebhooks; CtxSend content None (Some 8%nat)])
  ∨ (∃ msg content,
       sticker_log file message tr ctx
         = opens file ++ [GuildWebhooks; LogError msg; CtxSend content None (Some 8%nat)])
  ∨ (delete_ok tr = false
     ∧ sticker_log file message tr ctx = opens file ++ [GuildWebhooks; MessageDelete])
  ∨ (delete_ok tr = true
     ∧ ∃ whs wh,
         webhooks tr = Some whs
         ∧ find_webhook (channel_name ctx) whs = Some wh
         ∧ sticker_log file message tr ctx
           = opens file ++
               [GuildWebhooks; MessageDelete;
                WebhookSend (wh_url wh) (avatar_url ctx) (display_name ctx) message file]).
Proof.
  unfold sticker_log.
  assert (file_opens tr file ∨ ∃ path, file = Some path ∧ can_open tr path = false)
    as [Hopen|(path & -> & Hno)].
  { destruct file as [path|]; [destruct (can_open tr path) eqn:Hc|].
    - left. by intros p [= <-].
    - right. by exists path.
    - left. by intros p. }
  - destruct (webhooks tr) as [whs|] eqn:Hwhs.
    + rewrite (sticker_callback_found file message tr ctx whs Hopen Hwhs).
      destruct (find_webhook (channel_name ctx) whs) as [wh|] eqn:Hfind.
      * destruct (from_url tr (wh_url wh)).
        -- right. by left.
        -- right. right. right. left. by eexists _, _.
        -- destruct (delete_ok tr) eqn:Hdel.
           ++ do 5 right. split; [done|]. by exists whs, wh.
           ++ do 4 right. by left.
      * right. right. left. rewrite call_run, <-(assoc_L (++)). by eexists.
    + rewrite (webhooks_failure_propagates file message tr ctx Hopen Hwhs).
      right. by left.
  - left. exists path. split; [done|].
    unfold sticker_callback, discord_File, bind, call. by rewrite Hno.
Qed.

(** X15.  In every run of the sticker callback, whatever the collaborators
    answer, a delivery through a webhook happens only after the request
    message was deleted with success, goes through the first qualifying
    webhook of the invoking channel, and carries the caller's avatar and
    display name, the sticker's message and its file; a run that delivers
    sends no notice. *)
Theorem delivery_only_after_deletion (file : option string) (message : string)
    (tr : Transport) (ctx : Context)
    (url avatar username content : string) (attached : option string) :
  WebhookSend url avatar username content attached ∈ sticker_log file message tr ctx →
  delete_ok tr = true
  ∧ (∃ whs wh,
       webhooks tr = Some whs
       ∧ find_webhook (channel_name ctx) whs = Some wh
       ∧ url = wh_url wh)
  ∧ avatar = avatar_url ctx
  ∧ username = display_name ctx
  ∧ content = message
  ∧ attached = file
  ∧ sticker_log file message tr ctx
    = opens file ++ [GuildWebhooks; MessageDelete;
                     WebhookSend url avatar username content attached].
Proof.
  intros Hin.
  destruct (sticker_log_cases file message tr ctx)
    as [(path & -> & Hlog)|[Hlog|[(c & Hlog)|[(msg & c & Hlog)|[(_ & Hlog)|
        (Hdel & whs & wh & Hwhs & Hfind & Hlog)]]]]];
    rewrite Hlog in Hin |- *.
  - cases_of_elem Hin. discriminate.
  - exfalso. revert Hin. unfold opens. destruct file; not_in_log.
  - exfalso. revert Hin. unfold opens. destruct file; not_in_log.
  - exfalso. revert Hin. unfold opens. destruct file; not_in_log.
  - exfalso. revert Hin. unfold opens. destruct file; not_in_log.
  - assert (WebhookSend url avatar username content attached
            = WebhookSend (wh_url wh) (avatar_url ctx) (display_name ctx) message file)
      as Heq.
    { revert Hin. unfold opens.
      destruct file; rewrite ?elem_of_app, !elem_of_cons, ?elem_of_nil;
        intros Hin; decompose [or] Hin; done. }
    injection Heq as -> -> -> -> ->.
    split; [done|]. split; [by exists whs, wh|]. done.
Qed.

Lemma delivery_only_after_deletion_witness :
  delete_ok (hooked_channel true true) = true
  ∧ (∃ whs wh,
       webhooks (hooked_channel true true) = Some whs
       ∧ find_webhook (channel_name rex) whs = Some wh
       ∧ "https://hooks/3/t3" = wh_url wh)
  ∧ "https://cdn/rex.png" = avatar_url rex
  ∧ "Rex" = display_name rex
  ∧ "woof!" = "woof!"
  ∧ (None : option string) = None
  ∧ sticker_log None "woof!" (hooked_channel true true) rex
    = opens None ++ [GuildWebhooks; MessageDelete;
                     WebhookSend "https://hooks/3/t3" "https://cdn/rex.png" "Rex" "woof!" None].
Proof.
  apply (delivery_only_after_deletion None "woof!" (hooked_channel true true) rex
           "https://hooks/3/t3" "https://cdn/rex.png" "Rex" "woof!" None).
  unfold sticker_log. vm_compute. do 2 apply list_elem_of_further. apply list_elem_of_here.
Defined.

(** X16.  The callback of a category never lists the webhooks, never
    deletes the request message and never delivers through a webhook: it
    opens its thumbnail, if it has one, and sends through the context. *)
Theorem category_callback_leaves_webhooks (formatted_message : string)
    (file : option string) (tr : Transport) (ctx : Context) :
  Forall (λ e, touches_webhooks e = false)
    (category_callback formatted_message file tr ctx []).2
  ∧ length (category_callback formatted_message file tr ctx []).2 ≤ 2.
Proof.
  unfold category_callback, discord_File, bind, call, ret.
  destruct file as [path|]; simpl; [destruct (can_open tr path); simpl|];
    (split; [repeat constructor|lia]).
Qed.

(** ** The [stickers] command *)

Lemma rev_app_rev_app (s acc acc' : string) :
  String.rev_app (String.rev_app s acc) acc' = String.rev_app acc (s +:+ acc').
Proof.
  revert acc acc'. induction s as [|c s IH]; intros acc acc'; simpl; [done|].
  by rewrite IH.
Qed.

Lemma append_empty_r (s : string) : s +:+ "" = s.
Proof. induction s as [|c s IH]; [done|]. by rewrite append_cons, IH. Qed.

Lemma rev_involutive (s : string) : String.rev (String.rev s) = s.
Proof. unfold String.rev. rewrite rev_app_rev_app. simpl. apply append_empty_r. Qed.

Lemma rev_app_last (s acc : string) (c : ascii) :
  last_char s = Some c → ∃ r, String.rev_app s acc = String c r.
Proof.
  revert acc. induction s as [|a s IH]; intros acc; simpl; [done|].
  destruct s as [|b s]; [intros [= ->]; by eexists|].
  intros H. apply (IH (String a acc) H).
Qed.

(** Stripping changes nothing in a text that neither starts nor ends with
    whitespace. *)
Lemma strip_noop (c c' : ascii) (r : string) :
  PyStr.is_space c = false →
  last_char (String c r) = Some c' → PyStr.is_space c' = false →
  PyStr.strip (String c r) = String c r.
Proof.
  intros Hc Hlast Hc'. unfold PyStr.strip, PyStr.rstrip. simpl PyStr.lstrip at 2.
  rewrite Hc. destruct (rev_app_last (String c r) "" c' Hlast) as [r' Hrev].
  unfold String.rev at 2. rewrite Hrev. simpl. rewrite Hc', <-Hrev.
  exact (rev_involutive (String c r)).
Qed.

Lemma last_char_append (s t : string) :
  t ≠ "" → last_char (s +:+ t) = last_char t.
Proof.
  intros Ht. induction s as [|c s IH]; [done|].
  rewrite append_cons. simpl. rewrite IH.
  destruct (s +:+ t) eqn:Hst; [|done].
  destruct s; [by rewrite append_empty_l in Hst|by rewrite append_cons in Hst].
Qed.

Lemma append_nonempty_r (s t : string) : t ≠ "" → s +:+ t ≠ "".
Proof. intros Ht. destruct s; [by rewrite append_empty_l|by rewrite append_cons]. Qed.

Lemma last_char_cons (a : ascii) (t : string) :
  t ≠ "" → last_char (String a t) = last_char t.
Proof. by destruct t. Qed.

Lemma stickers_text_last (command_prefix categories : string) :
  last_char (stickers_text command_prefix categories) = Some "!"%char.
Proof.
  unfold stickers_text.
  rewrite last_char_append by done.
  rewrite last_char_cons by (by repeat apply append_nonempty_r).
  rewrite !last_char_append by (by repeat apply append_nonempty_r).
  reflexivity.
Qed.

(** X17.  The [stickers] command sends its whole text, with the prefix of
    the bot and the category names joined by spaces in the order of
    [category_names]; the final [strip] removes nothing, whatever the prefix
    and the names are. *)
Theorem stickers_sends_whole_text (self : Stickers) (command_prefix : string)
    (tr : Transport) :
  stickers self command_prefix tr [] =
    (if ctx_send_ok tr then Returned () else Raised HTTPException,
     [CtxSend (stickers_text command_prefix (PyStr.join " " (category_names self)))
        None None]).
Proof.
  unfold stickers. rewrite call_run. simpl. do 3 f_equal.
  pose proof (stickers_text_last command_prefix (PyStr.join " " (category_names self)))
    as Hlast.
  revert Hlast. unfold stickers_text at 1 2 3. rewrite append_cons. intros Hlast.
  by apply (strip_noop _ "!"%char).
Qed.
